(** * osu!mania beatmap parser: a shallow embedding of [osu_mania_parser.py]

    The development follows the source file top-down: the pieces of the
    Python run time the parser relies on ([str.split], [int], [float],
    [round], [re.match] with the section pattern, [list.sort]), then the
    three dataclasses with their methods, then the line dispatcher of
    [parse_file_sync].

    Modelling decisions.
    - Python [int] is [Z]; [&] is [Z.land], [//] is [Z.div].
    - Python [float] is IEEE 754 binary64, taken from the Standard Library's
      executable specification [SpecFloat] at precision 53 and maximal
      exponent 1024.
    - Text is [string]; the characters are the bytes of the UTF-8 text.  All
      separators, keys and numerals of the format are ASCII, so splitting and
      comparing bytes agrees with splitting and comparing code points.
      Numerals are read in their ASCII form: the non-ASCII white space and
      digits that [int] and [float] also accept are rejected here, and the
      interpreter's optional limit on the number of digits of an integer
      literal is not modelled.
    - An exception is a value of [exn]; code that may raise returns
      [result].  Mutation of the [Beatmap] under construction is explicit
      state passing.
    - A file system is a map from paths to files and directories;
      [parse_file_sync] takes it as an argument.  [parse_contents] is the
      body of [parse_file_sync] from the point where [contents] holds the
      text that was read. *)

From Stdlib Require Import ZArith List String Ascii Bool Lia.
From Stdlib Require Import Floats.SpecFloat.
From Stdlib Require Import Sorting.Sorted.
Import ListNotations.

Local Open Scope Z_scope.

(** ** Exceptions and the error monad *)

Inductive exn : Type :=
| ValueError (msg : string)
| IndexError
| ZeroDivisionError
| OverflowError
| FileNotFoundError (msg : string)
| IsADirectoryError
| UnicodeDecodeError.

Inductive result (A : Type) : Type :=
| Ok (a : A)
| Raise (e : exn).

Arguments Ok {A} a.
Arguments Raise {A} e.

Definition bind {A B : Type} (r : result A) (k : A -> result B) : result B :=
  match r with
  | Ok a => k a
  | Raise e => Raise e
  end.

Notation "x <- e ;; k" := (bind e (fun x => k))
  (at level 61, e at next level, right associativity).

(** [xs[i]] for a non-negative constant index. *)
Definition index {A : Type} (xs : list A) (i : nat) : result A :=
  match nth_error xs i with
  | Some x => Ok x
  | None => Raise IndexError
  end.

(** ** Strings *)

(** [s.startswith(p)] is [String.prefix p s]. *)

(** [s.split(sep)] for a non-empty separator: the pieces between the
    leftmost non-overlapping occurrences of [sep].  [skip] counts the
    characters of an occurrence that are still to be dropped; [acc] is the
    piece being collected. *)
Fixpoint split_go (sep : string) (skip : nat) (acc : string) (s : string)
  : list string :=
  match s with
  | EmptyString => [acc]
  | String c s' =>
      match skip with
      | S k => split_go sep k acc s'
      | O =>
          if prefix sep s
          then acc :: split_go sep (String.length sep - 1) EmptyString s'
          else split_go sep 0 (acc ++ String c EmptyString) s'
      end
  end.

Definition split (sep : string) (s : string) : list string :=
  split_go sep 0 EmptyString s.

Definition code (c : ascii) : Z := Z.of_nat (nat_of_ascii c).

(** The white space [int] and [float] skip around a numeral:
    tab, line feed, vertical tab, form feed, carriage return, space. *)
Definition is_space (c : ascii) : bool :=
  ((9 <=? code c) && (code c <=? 13)) || (code c =? 32).

Definition is_digit (c : ascii) : bool :=
  (48 <=? code c) && (code c <=? 57).

Definition is_alpha (c : ascii) : bool :=
  ((65 <=? code c) && (code c <=? 90)) || ((97 <=? code c) && (code c <=? 122)).

Definition is_alnum (c : ascii) : bool := is_alpha c || is_digit c.

Definition digit_val (c : ascii) : Z := code c - 48.

Fixpoint lstrip (s : string) : string :=
  match s with
  | String c s' => if is_space c then lstrip s' else s
  | EmptyString => s
  end.

Fixpoint all_space (s : string) : bool :=
  match s with
  | String c s' => is_space c && all_space s'
  | EmptyString => true
  end.

(** Reads the rest of a digit group: digits, each optionally preceded by
    one underscore.  Returns the accumulated value, the number of digits
    read and the text that follows the group. *)
Fixpoint read_digits (acc : Z) (n : Z) (s : string) : Z * Z * string :=
  match s with
  | String c s' =>
      if is_digit c then read_digits (10 * acc + digit_val c) (n + 1) s'
      else if Ascii.eqb c "_" then
        match s' with
        | String d s'' =>
            if is_digit d
            then read_digits (10 * acc + digit_val d) (n + 1) s''
            else (acc, n, s)
        | EmptyString => (acc, n, s)
        end
      else (acc, n, s)
  | EmptyString => (acc, n, s)
  end.

(** A digit group starts with a digit. *)
Definition read_group (acc : Z) (s : string) : option (Z * Z * string) :=
  match s with
  | String c s' =>
      if is_digit c then Some (read_digits (10 * acc + digit_val c) 1 s')
      else None
  | EmptyString => None
  end.

(** An optional sign; [true] is minus. *)
Definition read_sign (s : string) : bool * string :=
  match s with
  | String "-" s' => (true, s')
  | String "+" s' => (false, s')
  | _ => (false, s)
  end.

Definition invalid_int : exn :=
  ValueError "invalid literal for int() with base 10".

(** [int(s)]: white space, an optional sign, a digit group, white space. *)
Definition py_int (s : string) : result Z :=
  let (neg, s1) := read_sign (lstrip s) in
  match read_group 0 s1 with
  | Some (v, _, rest) =>
      if all_space rest then Ok (if neg then - v else v)
      else Raise invalid_int
  | None => Raise invalid_int
  end.

(** ** Floating point

    [float] values are binary64.  The operations are those of [SpecFloat];
    every result is rounded to nearest, ties to even. *)

Definition float : Type := spec_float.

Definition float_of_int (z : Z) : float := binary_normalize 53 1024 z 0 false.

(** The literal [1.0]. *)
Definition one : float := S754_finite false 4503599627370496 (-52).

Definition is_zero (x : float) : bool :=
  match x with
  | S754_zero _ => true
  | _ => false
  end.

(** [x > 0] for a float [x] and the integer [0]; false on NaN. *)
Definition gt0 (x : float) : bool :=
  match SFcompare x (S754_zero false) with
  | Some Gt => true
  | _ => false
  end.

(** [x / y] on floats: a zero divisor raises, every other case is the
    IEEE quotient. *)
Definition truediv (x y : float) : result float :=
  if is_zero y then Raise ZeroDivisionError else Ok (SFdiv 53 1024 x y).

(** [round(x)] with one argument: the nearest integer, ties to even.
    Infinities and NaN have no integer value. *)
Definition round (x : float) : result Z :=
  match x with
  | S754_zero _ => Ok 0
  | S754_infinity _ => Raise OverflowError
  | S754_nan => Raise (ValueError "cannot convert float NaN to integer")
  | S754_finite s m e =>
      let mag :=
        if 0 <=? e then Zpos m * 2 ^ e
        else
          let d := 2 ^ (- e) in
          let q := Zpos m / d in
          let r := Zpos m mod d in
          match 2 * r ?= d with
          | Lt => q
          | Gt => q + 1
          | Eq => if Z.even q then q else q + 1
          end in
      Ok (if s then - mag else mag)
  end.

(** The binary64 value nearest to [m * 10 ^ e], for [m >= 0]. *)
Definition float_of_decimal (neg : bool) (m e : Z) : float :=
  match m with
  | Zpos p =>
      if 0 <=? e then binary_round 53 1024 neg (Z.to_pos (Zpos p * 10 ^ e)) 0
      else
        let '(q, e', l) :=
          SFdiv_core_binary 53 1024 (Zpos p) 0 (10 ^ (- e)) 0 in
        binary_round_aux 53 1024 neg q e' l
  | _ => S754_zero neg
  end.

Definition lower (c : ascii) : ascii :=
  if (65 <=? code c) && (code c <=? 90)
  then ascii_of_nat (nat_of_ascii c + 32)
  else c.

Fixpoint lowercase (s : string) : string :=
  match s with
  | String c s' => String (lower c) (lowercase s')
  | EmptyString => EmptyString
  end.

Fixpoint drop (n : nat) (s : string) : string :=
  match n, s with
  | S k, String _ s' => drop k s'
  | _, _ => s
  end.

(** The digits of a decimal numeral: an integer part, a point and a
    fraction, of which one may be missing.  Returns all digits read as one
    integer, the number of fraction digits, and the text that follows. *)
Definition read_mantissa (s : string) : option (Z * Z * string) :=
  match read_group 0 s with
  | Some (i, _, r1) =>
      match r1 with
      | String "." r2 =>
          match read_group i r2 with
          | Some (v, nf, r3) => Some (v, nf, r3)
          | None => Some (i, 0, r2)
          end
      | _ => Some (i, 0, r1)
      end
  | None =>
      match s with
      | String "." r2 => read_group 0 r2
      | _ => None
      end
  end.

(** An optional exponent part: [e] or [E], an optional sign, a digit
    group. *)
Definition read_exponent (s : string) : option (Z * string) :=
  match s with
  | String c r =>
      if Ascii.eqb (lower c) "e" then
        let (neg, r1) := read_sign r in
        match read_group 0 r1 with
        | Some (v, _, r2) => Some (if neg then - v else v, r2)
        | None => None
        end
      else Some (0, s)
  | EmptyString => Some (0, s)
  end.

Definition invalid_float : exn :=
  ValueError "could not convert string to float".

(** [float(s)]: white space, an optional sign, then [inf], [infinity] or
    [nan] in any case, or a decimal numeral; white space. *)
Definition py_float (s : string) : result float :=
  let (neg, s1) := read_sign (lstrip s) in
  let l := lowercase s1 in
  if prefix "infinity" l then
    if all_space (drop 8 s1) then Ok (S754_infinity neg) else Raise invalid_float
  else if prefix "inf" l then
    if all_space (drop 3 s1) then Ok (S754_infinity neg) else Raise invalid_float
  else if prefix "nan" l then
    if all_space (drop 3 s1) then Ok S754_nan else Raise invalid_float
  else
    match read_mantissa s1 with
    | Some (m, nf, r1) =>
        match read_exponent r1 with
        | Some (e, r2) =>
            if all_space r2 then Ok (float_of_decimal neg m (e - nf))
            else Raise invalid_float
        | None => Raise invalid_float
        end
    | None => Raise invalid_float
    end.

(** ** The section pattern

    [re.match(r'^\[([a-zA-Z0-9]+)\]$', line)]: an opening bracket, one or
    more ASCII letters or digits, a closing bracket, and then the end of the
    text, which [$] also finds in front of one final line feed.  The result
    is group 1. *)

Fixpoint span_alnum (s : string) : string * string :=
  match s with
  | String c s' =>
      if is_alnum c
      then let (tok, rest) := span_alnum s' in (String c tok, rest)
      else (EmptyString, s)
  | EmptyString => (EmptyString, s)
  end.

Definition newline : string := String (ascii_of_nat 10) EmptyString.
Definition crlf : string := String (ascii_of_nat 13) newline.

Definition section_match (line : string) : option string :=
  match line with
  | String "[" body =>
      let (tok, rest) := span_alnum body in
      match tok, rest with
      | String _ _, String "]" tail =>
          if String.eqb tail EmptyString || String.eqb tail newline
          then Some tok else None
      | _, _ => None
      end
  | _ => None
  end.

(** ** Sorting

    [list.sort()] on a list of integers.  The order on [int] is total and
    equal integers are indistinguishable, so the sorted list is determined by
    the elements; it is computed here by insertion. *)

Fixpoint insert (x : Z) (l : list Z) : list Z :=
  match l with
  | [] => [x]
  | y :: l' => if x <=? y then x :: l else y :: insert x l'
  end.

Fixpoint sort (l : list Z) : list Z :=
  match l with
  | [] => []
  | x :: l' => insert x (sort l')
  end.

(** [x in xs] on a list of integers. *)
Fixpoint mem (x : Z) (xs : list Z) : bool :=
  match xs with
  | [] => false
  | y :: xs' => (y =? x) || mem x xs'
  end.

(** ** Reading a text file

    [open(path, 'r', encoding='utf-8')] followed by [read()].  The bytes of
    the file are decoded as UTF-8, which fails on an ill-formed sequence, and
    the text mode then turns every line ending, a carriage return followed by
    a line feed as well as a lone carriage return, into one line feed.  What
    [read()] returns therefore holds no carriage return.

    A file system maps a path to what is there.  Access rights and changes
    of the file system during the call are not modelled. *)

Definition lf : ascii := ascii_of_nat 10.
Definition cr : ascii := ascii_of_nat 13.

Definition in_range (lo hi : Z) (c : ascii) : bool :=
  (lo <=? code c) && (code c <=? hi).

(** The second byte of a three-byte sequence that starts with [b0]. *)
Definition second_of_three (b0 b1 : ascii) : bool :=
  if code b0 =? 224 then in_range 160 191 b1
  else if code b0 =? 237 then in_range 128 159 b1
  else in_range 128 191 b1.

(** The second byte of a four-byte sequence that starts with [b0]. *)
Definition second_of_four (b0 b1 : ascii) : bool :=
  if code b0 =? 240 then in_range 144 191 b1
  else if code b0 =? 244 then in_range 128 143 b1
  else in_range 128 191 b1.

(** Well-formed UTF-8: no overlong form, no surrogate, nothing above
    U+10FFFF, no truncated sequence. *)
Fixpoint utf8_valid (s : string) : bool :=
  match s with
  | EmptyString => true
  | String b0 r0 =>
      if in_range 0 127 b0 then utf8_valid r0
      else
        match r0 with
        | EmptyString => false
        | String b1 r1 =>
            if in_range 194 223 b0 then in_range 128 191 b1 && utf8_valid r1
            else
              match r1 with
              | EmptyString => false
              | String b2 r2 =>
                  if in_range 224 239 b0 then
                    second_of_three b0 b1 && in_range 128 191 b2
                    && utf8_valid r2
                  else
                    match r2 with
                    | EmptyString => false
                    | String b3 r3 =>
                        if in_range 240 244 b0 then
                          second_of_four b0 b1 && in_range 128 191 b2
                          && in_range 128 191 b3 && utf8_valid r3
                        else false
                    end
              end
        end
  end.

(** The translation of line endings on input. *)
Fixpoint universal_newlines (s : string) : string :=
  match s with
  | EmptyString => EmptyString
  | String c r =>
      if Ascii.eqb c cr then
        match r with
        | String d r' =>
            if Ascii.eqb d lf then String lf (universal_newlines r')
            else String lf (universal_newlines r)
        | EmptyString => String lf EmptyString
        end
      else String c (universal_newlines r)
  end.

(** [f.read()] on the bytes [raw] of a file. *)
Definition read (raw : string) : result string :=
  if utf8_valid raw then Ok (universal_newlines raw)
  else Raise UnicodeDecodeError.

Inductive node : Type :=
| File (raw : string)
| Directory.

Definition filesystem : Type := string -> option node.

(** ** [class TimingPoint] *)

Module TimingPoint.

Record t : Type := mk
  { time : Z;
    velocity : float;
    timing_signature : Z;
    sample_set : Z;
    sample_index : Z;
    volume : Z;
    uninherited : bool;
    kiai_time : bool;
    omit_first_bar_line : bool;
    bpm : option Z }.

(** The two branches on the sign of [beat_length]: the pair of the local
    variables [bpm] and [velocity] after the [if]. *)
Definition tempo (beat_length : float) : result (Z * float) :=
  if gt0 beat_length then
    q <- truediv (float_of_int 60000) beat_length ;;
    b <- round q ;;
    Ok (b, one)
  else
    q <- truediv (float_of_int 100) beat_length ;;
    Ok (0, SFabs q).

Definition parse (line : string) : result t :=
  let members := split "," line in
  m1 <- index members 1 ;;
  beat_length <- py_float m1 ;;
  bv <- tempo beat_length ;;
  let (bpm, velocity) := bv in
  m7 <- index members 7 ;;
  effects <- py_int m7 ;;
  m0 <- index members 0 ;;
  time <- py_int m0 ;;
  m2 <- index members 2 ;;
  timing_signature <- py_int m2 ;;
  m3 <- index members 3 ;;
  sample_set <- py_int m3 ;;
  m4 <- index members 4 ;;
  sample_index <- py_int m4 ;;
  m5 <- index members 5 ;;
  volume <- py_int m5 ;;
  m6 <- index members 6 ;;
  Ok {| time := time;
        bpm := if bpm =? 0 then None else Some bpm;
        velocity := velocity;
        timing_signature := timing_signature;
        sample_set := sample_set;
        sample_index := sample_index;
        volume := volume;
        uninherited := String.eqb m6 "1";
        kiai_time := negb (Z.land effects 1 =? 0);
        omit_first_bar_line := negb (Z.land effects 4 =? 0) |}.

End TimingPoint.

(** ** [class HitObject] *)

Inductive sound : Type := normal | whistle | finish | clap.

Inductive kind : Type := note | hold.

Module HitObject.

Record t : Type := mk
  { type : kind;
    hit_sound : list sound;
    new_combo : bool;
    combo_colors_skipped : Z;
    x : Z;
    y : Z;
    time : Z;
    end_time : Z }.

(** The list [hitsounds] after the four tests and the default. *)
Definition hitsounds_of (hitsound_flags : Z) : list sound :=
  let hitsounds := [] in
  let hitsounds :=
    if negb (Z.land hitsound_flags 1 =? 0) then hitsounds ++ [normal]
    else hitsounds in
  let hitsounds :=
    if negb (Z.land hitsound_flags 2 =? 0) then hitsounds ++ [whistle]
    else hitsounds in
  let hitsounds :=
    if negb (Z.land hitsound_flags 4 =? 0) then hitsounds ++ [finish]
    else hitsounds in
  let hitsounds :=
    if negb (Z.land hitsound_flags 8 =? 0) then hitsounds ++ [clap]
    else hitsounds in
  if (Z.of_nat (List.length hitsounds) =? 0) then hitsounds ++ [normal]
  else hitsounds.

Definition unknown_type : exn := ValueError "Unknown hit object type!".

Definition parse (line : string) : result t :=
  let members := split "," line in
  m3 <- index members 3 ;;
  type_flags <- py_int m3 ;;
  let is_note := negb (Z.land type_flags 1 =? 0) in
  let is_hold := negb (Z.land type_flags 128 =? 0) in
  let new_combo := negb (Z.land type_flags 4 =? 0) in
  let combo_colors_skipped := Z.land type_flags 28 / 4 in
  m4 <- index members 4 ;;
  hitsound_flags <- py_int m4 ;;
  let hitsounds := hitsounds_of hitsound_flags in
  if is_note then
    m0 <- index members 0 ;;
    x <- py_int m0 ;;
    m1 <- index members 1 ;;
    y <- py_int m1 ;;
    m2 <- index members 2 ;;
    time <- py_int m2 ;;
    m2' <- index members 2 ;;
    end_time <- py_int m2' ;;
    Ok {| type := note;
          hit_sound := hitsounds;
          new_combo := new_combo;
          combo_colors_skipped := combo_colors_skipped;
          x := x; y := y; time := time; end_time := end_time |}
  else if is_hold then
    m0 <- index members 0 ;;
    x <- py_int m0 ;;
    m1 <- index members 1 ;;
    y <- py_int m1 ;;
    m2 <- index members 2 ;;
    time <- py_int m2 ;;
    m5 <- index members 5 ;;
    e0 <- index (split ":" m5) 0 ;;
    end_time <- py_int e0 ;;
    Ok {| type := hold;
          hit_sound := hitsounds;
          new_combo := new_combo;
          combo_colors_skipped := combo_colors_skipped;
          x := x; y := y; time := time; end_time := end_time |}
  else Raise unknown_type.

End HitObject.


(** ** [class Beatmap] *)

Module Beatmap.

Record t : Type := mk
  { title : string;
    artist : string;
    creator : string;
    version : string;
    source : string;
    tags : list string;
    map_id : Z;
    mapset_id : Z;
    preview_time : Z;
    key_count : Z;
    hp_drain : float;
    difficulty : float;
    key_positions : list Z;
    min_bpm : Z;
    max_bpm : Z;
    nb_notes : Z;
    nb_holds : Z;
    timing_points : list TimingPoint.t;
    hit_objects : list HitObject.t }.

(** [Beatmap()]: every field at its default. *)
Definition default : t :=
  {| title := EmptyString; artist := EmptyString; creator := EmptyString;
     version := EmptyString; source := EmptyString; tags := [];
     map_id := 0; mapset_id := 0; preview_time := 0; key_count := 0;
     hp_drain := S754_zero false; difficulty := S754_zero false;
     key_positions := []; min_bpm := 0; max_bpm := 0;
     nb_notes := 0; nb_holds := 0; timing_points := []; hit_objects := [] |}.

(** Attribute assignment [self.f = v], one function per assigned field. *)

Definition set_title (v : string) (self : t) : t :=
  mk v (self.(artist)) (self.(creator)) (self.(version)) (self.(source))
    (self.(tags)) (self.(map_id)) (self.(mapset_id)) (self.(preview_time))
    (self.(key_count)) (self.(hp_drain)) (self.(difficulty))
    (self.(key_positions)) (self.(min_bpm)) (self.(max_bpm))
    (self.(nb_notes)) (self.(nb_holds)) (self.(timing_points))
    (self.(hit_objects)).

Definition set_artist (v : string) (self : t) : t :=
  mk (self.(title)) v (self.(creator)) (self.(version)) (self.(source))
    (self.(tags)) (self.(map_id)) (self.(mapset_id)) (self.(preview_time))
    (self.(key_count)) (self.(hp_drain)) (self.(difficulty))
    (self.(key_positions)) (self.(min_bpm)) (self.(max_bpm))
    (self.(nb_notes)) (self.(nb_holds)) (self.(timing_points))
    (self.(hit_objects)).

Definition set_creator (v : string) (self : t) : t :=
  mk (self.(title)) (self.(artist)) v (self.(version)) (self.(source))
    (self.(tags)) (self.(map_id)) (self.(mapset_id)) (self.(preview_time))
    (self.(key_count)) (self.(hp_drain)) (self.(difficulty))
    (self.(key_positions)) (self.(min_bpm)) (self.(max_bpm))
    (self.(nb_notes)) (self.(nb_holds)) (self.(timing_points))
    (self.(hit_objects)).

Definition set_version (v : string) (self : t) : t :=
  mk (self.(title)) (self.(artist)) (self.(creator)) v (self.(source))
    (self.(tags)) (self.(map_id)) (self.(mapset_id)) (self.(preview_time))
    (self.(key_count)) (self.(hp_drain)) (self.(difficulty))
    (self.(key_positions)) (self.(min_bpm)) (self.(max_bpm))
    (self.(nb_notes)) (self.(nb_holds)) (self.(timing_points))
    (self.(hit_objects)).

Definition set_tags (v : list string) (self : t) : t :=
  mk (self.(title)) (self.(artist)) (self.(creator)) (self.(version))
    (self.(source)) v (self.(map_id)) (self.(mapset_id))
    (self.(preview_time)) (self.(key_count)) (self.(hp_drain))
    (self.(difficulty)) (self.(key_positions)) (self.(min_bpm))
    (self.(max_bpm)) (self.(nb_notes)) (self.(nb_holds))
    (self.(timing_points)) (self.(hit_objects)).

Definition set_map_id (v : Z) (self : t) : t :=
  mk (self.(title)) (self.(artist)) (self.(creator)) (self.(version))
    (self.(source)) (self.(tags)) v (self.(mapset_id))
    (self.(preview_time)) (self.(key_count)) (self.(hp_drain))
    (self.(difficulty)) (self.(key_positions)) (self.(min_bpm))
    (self.(max_bpm)) (self.(nb_notes)) (self.(nb_holds))
    (self.(timing_points)) (self.(hit_objects)).

Definition set_mapset_id (v : Z) (self : t) : t :=
  mk (self.(title)) (self.(artist)) (self.(creator)) (self.(version))
    (self.(source)) (self.(tags)) (self.(map_id)) v (self.(preview_time))
    (self.(key_count)) (self.(hp_drain)) (self.(difficulty))
    (self.(key_positions)) (self.(min_bpm)) (self.(max_bpm))
    (self.(nb_notes)) (self.(nb_holds)) (self.(timing_points))
    (self.(hit_objects)).

Definition set_preview_time (v : Z) (self : t) : t :=
  mk (self.(title)) (self.(artist)) (self.(creator)) (self.(version))
    (self.(source)) (self.(tags)) (self.(map_id)) (self.(mapset_id)) v
    (self.(key_count)) (self.(hp_drain)) (self.(difficulty))
    (self.(key_positions)) (self.(min_bpm)) (self.(max_bpm))
    (self.(nb_notes)) (self.(nb_holds)) (self.(timing_points))
    (self.(hit_objects)).

Definition set_key_count (v : Z) (self : t) : t :=
  mk (self.(title)) (self.(artist)) (self.(creator)) (self.(version))
    (self.(source)) (self.(tags)) (self.(map_id)) (self.(mapset_id))
    (self.(preview_time)) v (self.(hp_drain)) (self.(difficulty))
    (self.(key_positions)) (self.(min_bpm)) (self.(max_bpm))
    (self.(nb_notes)) (self.(nb_holds)) (self.(timing_points))
    (self.(hit_objects)).

Definition set_hp_drain (v : float) (self : t) : t :=
  mk (self.(title)) (self.(artist)) (self.(creator)) (self.(version))
    (self.(source)) (self.(tags)) (self.(map_id)) (self.(mapset_id))
    (self.(preview_time)) (self.(key_count)) v (self.(difficulty))
    (self.(key_positions)) (self.(min_bpm)) (self.(max_bpm))
    (self.(nb_notes)) (self.(nb_holds)) (self.(timing_points))
    (self.(hit_objects)).

Definition set_difficulty (v : float) (self : t) : t :=
  mk (self.(title)) (self.(artist)) (self.(creator)) (self.(version))
    (self.(source)) (self.(tags)) (self.(map_id)) (self.(mapset_id))
    (self.(preview_time)) (self.(key_count)) (self.(hp_drain)) v
    (self.(key_positions)) (self.(min_bpm)) (self.(max_bpm))
    (self.(nb_notes)) (self.(nb_holds)) (self.(timing_points))
    (self.(hit_objects)).

Definition set_key_positions (v : list Z) (self : t) : t :=
  mk (self.(title)) (self.(artist)) (self.(creator)) (self.(version))
    (self.(source)) (self.(tags)) (self.(map_id)) (self.(mapset_id))
    (self.(preview_time)) (self.(key_count)) (self.(hp_drain))
    (self.(difficulty)) v (self.(min_bpm)) (self.(max_bpm))
    (self.(nb_notes)) (self.(nb_holds)) (self.(timing_points))
    (self.(hit_objects)).

Definition set_min_bpm (v : Z) (self : t) : t :=
  mk (self.(title)) (self.(artist)) (self.(creator)) (self.(version))
    (self.(source)) (self.(tags)) (self.(map_id)) (self.(mapset_id))
    (self.(preview_time)) (self.(key_count)) (self.(hp_drain))
    (self.(difficulty)) (self.(key_positions)) v (self.(max_bpm))
    (self.(nb_notes)) (self.(nb_holds)) (self.(timing_points))
    (self.(hit_objects)).

Definition set_max_bpm (v : Z) (self : t) : t :=
  mk (self.(title)) (self.(artist)) (self.(creator)) (self.(version))
    (self.(source)) (self.(tags)) (self.(map_id)) (self.(mapset_id))
    (self.(preview_time)) (self.(key_count)) (self.(hp_drain))
    (self.(difficulty)) (self.(key_positions)) (self.(min_bpm)) v
    (self.(nb_notes)) (self.(nb_holds)) (self.(timing_points))
    (self.(hit_objects)).

Definition set_nb_notes (v : Z) (self : t) : t :=
  mk (self.(title)) (self.(artist)) (self.(creator)) (self.(version))
    (self.(source)) (self.(tags)) (self.(map_id)) (self.(mapset_id))
    (self.(preview_time)) (self.(key_count)) (self.(hp_drain))
    (self.(difficulty)) (self.(key_positions)) (self.(min_bpm))
    (self.(max_bpm)) v (self.(nb_holds)) (self.(timing_points))
    (self.(hit_objects)).

Definition set_nb_holds (v : Z) (self : t) : t :=
  mk (self.(title)) (self.(artist)) (self.(creator)) (self.(version))
    (self.(source)) (self.(tags)) (self.(map_id)) (self.(mapset_id))
    (self.(preview_time)) (self.(key_count)) (self.(hp_drain))
    (self.(difficulty)) (self.(key_positions)) (self.(min_bpm))
    (self.(max_bpm)) (self.(nb_notes)) v (self.(timing_points))
    (self.(hit_objects)).

Definition set_timing_points (v : list TimingPoint.t) (self : t) : t :=
  mk (self.(title)) (self.(artist)) (self.(creator)) (self.(version))
    (self.(source)) (self.(tags)) (self.(map_id)) (self.(mapset_id))
    (self.(preview_time)) (self.(key_count)) (self.(hp_drain))
    (self.(difficulty)) (self.(key_positions)) (self.(min_bpm))
    (self.(max_bpm)) (self.(nb_notes)) (self.(nb_holds)) v
    (self.(hit_objects)).

Definition set_hit_objects (v : list HitObject.t) (self : t) : t :=
  mk (self.(title)) (self.(artist)) (self.(creator)) (self.(version))
    (self.(source)) (self.(tags)) (self.(map_id)) (self.(mapset_id))
    (self.(preview_time)) (self.(key_count)) (self.(hp_drain))
    (self.(difficulty)) (self.(key_positions)) (self.(min_bpm))
    (self.(max_bpm)) (self.(nb_notes)) (self.(nb_holds))
    (self.(timing_points)) v.

(** The loop of [get_timing_point]: [n] indices remain, the next one
    visited is [n - 1]. *)
Fixpoint scan_back (tps : list TimingPoint.t) (time : Z) (n : nat)
  : result (option TimingPoint.t) :=
  match n with
  | O => Ok None
  | S i =>
      tp <- index tps i ;;
      if tp.(TimingPoint.time) <=? time then Ok (Some tp)
      else scan_back tps time i
  end.

Definition get_timing_point (self : t) (time : Z) : result TimingPoint.t :=
  found <- scan_back self.(timing_points) time
             (List.length self.(timing_points)) ;;
  match found with
  | Some tp => Ok tp
  | None => index self.(timing_points) 0
  end.

Definition add_timing_point (self : t) (line : string) : result t :=
  timing_point <- TimingPoint.parse line ;;
  let bpm :=
    match timing_point.(TimingPoint.bpm) with
    | Some b => b
    | None => 0
    end in
  let self :=
    if self.(min_bpm) =? 0 then set_min_bpm bpm self
    else
      match timing_point.(TimingPoint.bpm) with
      | Some b => if b <? self.(min_bpm) then set_min_bpm bpm self else self
      | None => self
      end in
  let self :=
    if self.(max_bpm) =? 0 then set_max_bpm bpm self
    else
      match timing_point.(TimingPoint.bpm) with
      | Some b => if self.(max_bpm) <? b then set_max_bpm bpm self else self
      | None => self
      end in
  Ok (set_timing_points (self.(timing_points) ++ [timing_point]) self).

Definition add_hit_object (self : t) (line : string) : result t :=
  hit_object <- HitObject.parse line ;;
  let self :=
    match hit_object.(HitObject.type) with
    | note => set_nb_notes (self.(nb_notes) + 1) self
    | hold => set_nb_holds (self.(nb_holds) + 1) self
    end in
  let self :=
    if negb (mem hit_object.(HitObject.x) self.(key_positions))
    then set_key_positions
           (self.(key_positions) ++ [hit_object.(HitObject.x)]) self
    else self in
  Ok (set_hit_objects (self.(hit_objects) ++ [hit_object]) self).

End Beatmap.

(** ** [parse_file_sync] *)

Definition invalid_mode : exn :=
  ValueError "Beatmap's game mode is not set to osu!mania.".

(** The [General] branch. *)
Definition read_general (beatmap : Beatmap.t) (line : string)
  : result Beatmap.t :=
  let gen := split ": " line ++ [EmptyString] in
  g0 <- index gen 0 ;;
  if String.eqb g0 "Mode" then
    g1 <- index gen 1 ;;
    if negb (String.eqb g1 "3") then Raise invalid_mode else Ok beatmap
  else if String.eqb g0 "PreviewTime" then
    g1 <- index gen 1 ;;
    v <- py_int g1 ;;
    Ok (Beatmap.set_preview_time v beatmap)
  else Ok beatmap.

(** The [Metadata] branch. *)
Definition read_metadata (beatmap : Beatmap.t) (line : string)
  : result Beatmap.t :=
  let mdata := split ":" line in
  m0 <- index mdata 0 ;;
  if String.eqb m0 "Title" then
    m1 <- index mdata 1 ;; Ok (Beatmap.set_title m1 beatmap)
  else if String.eqb m0 "Artist" then
    m1 <- index mdata 1 ;; Ok (Beatmap.set_artist m1 beatmap)
  else if String.eqb m0 "Creator" then
    m1 <- index mdata 1 ;; Ok (Beatmap.set_creator m1 beatmap)
  else if String.eqb m0 "Version" then
    m1 <- index mdata 1 ;; Ok (Beatmap.set_version m1 beatmap)
  else if String.eqb m0 "Tags" then
    m1 <- index mdata 1 ;; Ok (Beatmap.set_tags (split " " m1) beatmap)
  else if String.eqb m0 "BeatmapID" then
    m1 <- index mdata 1 ;;
    v <- py_int m1 ;;
    Ok (Beatmap.set_map_id v beatmap)
  else if String.eqb m0 "BeatmapSetID" then
    m1 <- index mdata 1 ;;
    v <- py_int m1 ;;
    Ok (Beatmap.set_mapset_id v beatmap)
  else Ok beatmap.

(** The [Difficulty] branch. *)
Definition read_difficulty (beatmap : Beatmap.t) (line : string)
  : result Beatmap.t :=
  let diff := split ":" line ++ [EmptyString] in
  d0 <- index diff 0 ;;
  if String.eqb d0 "HPDrainRate" then
    d1 <- index diff 1 ;;
    v <- py_float d1 ;;
    Ok (Beatmap.set_hp_drain v beatmap)
  else if String.eqb d0 "CircleSize" then
    d1 <- index diff 1 ;;
    v <- py_int d1 ;;
    Ok (Beatmap.set_key_count v beatmap)
  else if String.eqb d0 "OverallDifficulty" then
    d1 <- index diff 1 ;;
    v <- py_float d1 ;;
    Ok (Beatmap.set_difficulty v beatmap)
  else Ok beatmap.

(** The state of the loop over [lines]: the variable [section_to_read] and
    the beatmap under construction. *)
Definition state : Type := (string * Beatmap.t)%type.

(** One iteration of the loop. *)
Definition step (st : state) (line : string) : result state :=
  let (section_to_read, beatmap) := st in
  match section_match line with
  | Some name => Ok (name, beatmap)
  | None =>
      if String.eqb section_to_read "General" then
        b <- read_general beatmap line ;; Ok (section_to_read, b)
      else if String.eqb section_to_read "Metadata" then
        b <- read_metadata beatmap line ;; Ok (section_to_read, b)
      else if String.eqb section_to_read "Difficulty" then
        b <- read_difficulty beatmap line ;; Ok (section_to_read, b)
      else if String.eqb section_to_read "TimingPoints" then
        b <- Beatmap.add_timing_point beatmap line ;; Ok (section_to_read, b)
      else if String.eqb section_to_read "HitObjects" then
        b <- Beatmap.add_hit_object beatmap line ;; Ok (section_to_read, b)
      else Ok st
  end.

(** The loop [for line in lines]. *)
Fixpoint run (st : state) (lines : list string) : result state :=
  match lines with
  | [] => Ok st
  | line :: rest => st' <- step st line ;; run st' rest
  end.

(** The filter of the list comprehension: neither a comment nor empty. *)
Definition keep (line : string) : bool :=
  negb (prefix "//" line) && negb (String.eqb line EmptyString).

Definition lines_of (contents : string) : list string :=
  filter keep (split crlf contents).

(** The body of [parse_file_sync] from the point where the variable
    [contents] holds the text that was read. *)
Definition parse_contents (contents : string) : result Beatmap.t :=
  st <- run (EmptyString, Beatmap.default) (lines_of contents) ;;
  let beatmap := snd st in
  Ok (Beatmap.set_key_positions (sort beatmap.(Beatmap.key_positions)) beatmap).

(** [parse_file_sync(path)] in a file system [fs]: the existence check, the
    read, then the body. *)
Definition parse_file_sync (fs : filesystem) (path : string)
  : result Beatmap.t :=
  match fs path with
  | None =>
      Raise (FileNotFoundError ("File at " ++ path ++ " does not exist!"))
  | Some Directory => Raise IsADirectoryError
  | Some (File raw) =>
      contents <- read raw ;;
      parse_contents contents
  end.

(** * Specification vocabulary

    Definitions that the statements below use to speak about a line the way
    the specification does: by field, by bit, by position. *)

(** The [i]-th comma-separated field of [line]. *)
Definition text_field (line : string) (i : nat) : result string :=
  index (split "," line) i.

(** The [i]-th comma-separated field of [line] read as an integer. *)
Definition int_field (line : string) (i : nat) : result Z :=
  m <- text_field line i ;; py_int m.

(** The [i]-th comma-separated field of [line] read as a float. *)
Definition float_field (line : string) (i : nat) : result float :=
  m <- text_field line i ;; py_float m.

(** The flag bit that stands for a hit sound. *)
Definition sound_bit (s : sound) : Z :=
  match s with
  | normal => 0
  | whistle => 1
  | finish => 2
  | clap => 3
  end.

(** The hit sounds of a flag word as the specification lists them: the
    sounds whose bit is set, in the order normal, whistle, finish, clap, and
    [normal] alone when no bit is set. *)
Definition flagged_sounds (flags : Z) : list sound :=
  filter (fun s => Z.testbit flags (sound_bit s)) [normal; whistle; finish; clap].

Definition spec_hit_sound (flags : Z) : list sound :=
  match flagged_sounds flags with
  | [] => [normal]
  | l => l
  end.

(** The times of a list of timing points ascend, weakly or strictly. *)
Definition ascending (tps : list TimingPoint.t) : Prop :=
  StronglySorted (fun a b => a.(TimingPoint.time) <= b.(TimingPoint.time)) tps.

Definition strictly_ascending (tps : list TimingPoint.t) : Prop :=
  StronglySorted (fun a b => a.(TimingPoint.time) < b.(TimingPoint.time)) tps.

(** A timing point carries a tempo. *)
Definition has_bpm (tp : TimingPoint.t) : Prop :=
  tp.(TimingPoint.bpm) <> None.

(** [x < 0]; false on NaN. *)
Definition lt0 (x : float) : bool := SFltb x (S754_zero false).

(** [x <= 0]; false on NaN. *)
Definition le0 (x : float) : bool := SFleb x (S754_zero false).

(** The tempo and velocity of the outcome of [TimingPoint.parse]. *)
Definition tempo_of (r : result TimingPoint.t) : result (option Z * float) :=
  tp <- r ;; Ok (tp.(TimingPoint.bpm), tp.(TimingPoint.velocity)).

(** The sign of a float is [s], or the float is NaN. *)
Definition sign_is (s : bool) (x : float) : Prop :=
  match x with
  | S754_zero s' | S754_infinity s' | S754_finite s' _ _ => s' = s
  | S754_nan => True
  end.

(** The timing point that [TimingPoint.parse] builds from the integer
    fields, the text [u] of the uninherited field, and a tempo and velocity. *)
Definition timing_point_of (time signature sample_set sample_index volume
  effects : Z) (u : string) (bpm : option Z) (velocity : float)
  : TimingPoint.t :=
  {| TimingPoint.time := time;
     TimingPoint.velocity := velocity;
     TimingPoint.timing_signature := signature;
     TimingPoint.sample_set := sample_set;
     TimingPoint.sample_index := sample_index;
     TimingPoint.volume := volume;
     TimingPoint.uninherited := String.eqb u "1";
     TimingPoint.kiai_time := Z.testbit effects 0;
     TimingPoint.omit_first_bar_line := Z.testbit effects 2;
     TimingPoint.bpm := bpm |}.

(** The names the dispatcher has a branch for. *)
Definition known_section (name : string) : bool :=
  String.eqb name "General" || String.eqb name "Metadata" ||
  String.eqb name "Difficulty" || String.eqb name "TimingPoints" ||
  String.eqb name "HitObjects".

Definition is_note (h : HitObject.t) : bool :=
  match h.(HitObject.type) with
  | note => true
  | hold => false
  end.

Definition is_hold (h : HitObject.t) : bool :=
  match h.(HitObject.type) with
  | note => false
  | hold => true
  end.

(** The characters of a text, to say that one does not occur. *)
Definition chars (s : string) : list ascii := list_ascii_of_string s.

(** The number of occurrences of a character. *)
Fixpoint occurrences (c : ascii) (s : string) : nat :=
  match s with
  | EmptyString => O
  | String d s' =>
      if Ascii.eqb c d then S (occurrences c s') else occurrences c s'
  end.

(** A call of one of the two methods that add to a beatmap, and a
    sequence of such calls on one beatmap, each on the result of the one
    before.  The sequence stops at the first call that raises. *)
Inductive call : Type :=
| AddTimingPoint (line : string)
| AddHitObject (line : string).

Definition apply_call (b : Beatmap.t) (c : call) : result Beatmap.t :=
  match c with
  | AddTimingPoint line => Beatmap.add_timing_point b line
  | AddHitObject line => Beatmap.add_hit_object b line
  end.

Fixpoint apply_calls (b : Beatmap.t) (cs : list call) : result Beatmap.t :=
  match cs with
  | [] => Ok b
  | c :: rest => b' <- apply_call b c ;; apply_calls b' rest
  end.

(** The lines of the calls of one method, in order. *)
Fixpoint timing_point_lines (cs : list call) : list string :=
  match cs with
  | [] => []
  | AddTimingPoint line :: rest => line :: timing_point_lines rest
  | AddHitObject _ :: rest => timing_point_lines rest
  end.

Fixpoint hit_object_lines (cs : list call) : list string :=
  match cs with
  | [] => []
  | AddTimingPoint _ :: rest => hit_object_lines rest
  | AddHitObject line :: rest => line :: hit_object_lines rest
  end.

(** The file system that holds one file. *)
Definition single_file (name raw : string) : filesystem :=
  fun path => if String.eqb path name then Some (File raw) else None.

(** * Properties *)

(** ** The error monad *)

Lemma bind_ok {A B : Type} (r : result A) (k : A -> result B) (b : B) :
  bind r k = Ok b -> exists a, r = Ok a /\ k a = Ok b.
Proof.
  destruct r as [a | e]; simpl; intro H.
  - exists a; split; [reflexivity | exact H].
  - discriminate H.
Qed.

Lemma bind_raise {A B : Type} (r : result A) (k : A -> result B) (e : exn) :
  bind r k = Raise e ->
  r = Raise e \/ exists a, r = Ok a /\ k a = Raise e.
Proof.
  destruct r as [a | e']; simpl; intro H.
  - right; exists a; split; [reflexivity | exact H].
  - left; injection H as ->; reflexivity.
Qed.

(** Takes apart a hypothesis [x <- r ;; k = Ok b]. *)
Ltac bind_inv H :=
  let a := fresh "v" in
  let Ha := fresh "E" in
  apply bind_ok in H; destruct H as (a & Ha & H).

Lemma int_field_ok (line : string) (i : nat) (v : Z) :
  int_field line i = Ok v ->
  exists m, index (split "," line) i = Ok m /\ py_int m = Ok v.
Proof.
  unfold int_field, text_field; intro H; bind_inv H; eauto.
Qed.

(** ** Bit masks *)

Lemma land_pow2 (f k : Z) :
  0 <= k -> (Z.land f (2 ^ k) =? 0) = negb (Z.testbit f k).
Proof.
  intro Hk.
  destruct (Z.testbit f k) eqn:Hb; simpl.
  - apply Z.eqb_neq; intro H0.
    assert (Hbit : Z.testbit (Z.land f (2 ^ k)) k = false)
      by (rewrite H0; apply Z.bits_0).
    rewrite Z.land_spec, Hb, Z.pow2_bits_true in Hbit by exact Hk.
    discriminate Hbit.
  - apply Z.eqb_eq, Z.bits_inj'; intros n Hn.
    rewrite Z.land_spec, Z.bits_0.
    destruct (Z.eq_dec k n) as [-> | Hne].
    + rewrite Hb; reflexivity.
    + rewrite (Z.pow2_bits_false k n) by assumption.
      apply andb_false_r.
Qed.

Lemma mask_bit0 (f : Z) : negb (Z.land f 1 =? 0) = Z.testbit f 0.
Proof.
  change (Z.land f 1) with (Z.land f (2 ^ 0)).
  rewrite land_pow2 by lia; apply negb_involutive.
Qed.

Lemma mask_bit1 (f : Z) : negb (Z.land f 2 =? 0) = Z.testbit f 1.
Proof.
  change (Z.land f 2) with (Z.land f (2 ^ 1)).
  rewrite land_pow2 by lia; apply negb_involutive.
Qed.

Lemma mask_bit2 (f : Z) : negb (Z.land f 4 =? 0) = Z.testbit f 2.
Proof.
  change (Z.land f 4) with (Z.land f (2 ^ 2)).
  rewrite land_pow2 by lia; apply negb_involutive.
Qed.

Lemma mask_bit3 (f : Z) : negb (Z.land f 8 =? 0) = Z.testbit f 3.
Proof.
  change (Z.land f 8) with (Z.land f (2 ^ 3)).
  rewrite land_pow2 by lia; apply negb_involutive.
Qed.

Lemma mask_bit7 (f : Z) : negb (Z.land f 128 =? 0) = Z.testbit f 7.
Proof.
  change (Z.land f 128) with (Z.land f (2 ^ 7)).
  rewrite land_pow2 by lia; apply negb_involutive.
Qed.

(** ** Hit sounds *)

Lemma hitsounds_of_spec (flags : Z) :
  HitObject.hitsounds_of flags = spec_hit_sound flags.
Proof.
  unfold HitObject.hitsounds_of, spec_hit_sound, flagged_sounds.
  rewrite mask_bit0, mask_bit1, mask_bit2, mask_bit3.
  cbv [filter sound_bit].
  destruct (Z.testbit flags 0), (Z.testbit flags 1),
    (Z.testbit flags 2), (Z.testbit flags 3); reflexivity.
Qed.

Lemma spec_hit_sound_nonempty (flags : Z) : spec_hit_sound flags <> [].
Proof.
  unfold spec_hit_sound.
  destruct (flagged_sounds flags); discriminate.
Qed.

(** ** [HitObject.parse] case by case *)

Lemma int_field_intro (line : string) (i : nat) (m : string) (v : Z) :
  index (split "," line) i = Ok m -> py_int m = Ok v ->
  int_field line i = Ok v.
Proof.
  intros Hm Hv; unfold int_field, text_field; rewrite Hm; exact Hv.
Qed.

(** What an accepted line looks like: the five common fields are integers,
    the note bit or else the hold bit is set, and the record is filled from
    them. *)
Lemma parse_hit_object_ok (line : string) (h : HitObject.t) :
  HitObject.parse line = Ok h ->
  exists tf hs x y t,
    int_field line 3 = Ok tf /\ int_field line 4 = Ok hs /\
    int_field line 0 = Ok x /\ int_field line 1 = Ok y /\
    int_field line 2 = Ok t /\
    h.(HitObject.hit_sound) = HitObject.hitsounds_of hs /\
    h.(HitObject.x) = x /\ h.(HitObject.y) = y /\ h.(HitObject.time) = t /\
    ((Z.testbit tf 0 = true /\
      h.(HitObject.type) = note /\ h.(HitObject.end_time) = t) \/
     (Z.testbit tf 0 = false /\ Z.testbit tf 7 = true /\
      h.(HitObject.type) = hold /\
      exists m5 e0,
        text_field line 5 = Ok m5 /\ index (split ":" m5) 0 = Ok e0 /\
        py_int e0 = Ok h.(HitObject.end_time))).
Proof.
  unfold HitObject.parse; intro H.
  bind_inv H. bind_inv H. bind_inv H. bind_inv H.
  rewrite mask_bit0, mask_bit7 in H.
  destruct (Z.testbit v0 0) eqn:B0; [ | destruct (Z.testbit v0 7) eqn:B7 ].
  - do 8 bind_inv H. injection H as <-.
    exists v0, v2, v4, v6, v8; cbn [HitObject.type HitObject.hit_sound HitObject.x HitObject.y
      HitObject.time HitObject.end_time].
    repeat (split; [ solve [ eauto using int_field_intro ] | ]).
    left. repeat split; congruence.
  - do 9 bind_inv H. injection H as <-.
    exists v0, v2, v4, v6, v8; cbn [HitObject.type HitObject.hit_sound HitObject.x HitObject.y
      HitObject.time HitObject.end_time].
    repeat (split; [ solve [ eauto using int_field_intro ] | ]).
    right. repeat split; try assumption. exists v9, v10. auto.
  - discriminate H.
Qed.

(** The five common fields decide the outcome whenever they are integers. *)
Lemma parse_hit_object_note (line : string) (tf hs x y t : Z) :
  int_field line 0 = Ok x -> int_field line 1 = Ok y ->
  int_field line 2 = Ok t -> int_field line 3 = Ok tf ->
  int_field line 4 = Ok hs ->
  Z.testbit tf 0 = true ->
  HitObject.parse line =
    Ok {| HitObject.type := note;
          HitObject.hit_sound := HitObject.hitsounds_of hs;
          HitObject.new_combo := Z.testbit tf 2;
          HitObject.combo_colors_skipped := Z.land tf 28 / 4;
          HitObject.x := x; HitObject.y := y;
          HitObject.time := t; HitObject.end_time := t |}.
Proof.
  intros H0 H1 H2 H3 H4 B0.
  apply int_field_ok in H0, H1, H2, H3, H4.
  destruct H0 as (m0 & I0 & P0), H1 as (m1 & I1 & P1), H2 as (m2 & I2 & P2),
    H3 as (m3 & I3 & P3), H4 as (m4 & I4 & P4).
  unfold HitObject.parse.
  rewrite I3; simpl; rewrite P3; simpl.
  rewrite I4; simpl; rewrite P4; simpl.
  rewrite mask_bit0, mask_bit2, B0.
  rewrite I0; simpl; rewrite P0; simpl.
  rewrite I1; simpl; rewrite P1; simpl.
  rewrite I2; simpl; rewrite P2; simpl.
  reflexivity.
Qed.

Lemma index_raise {A : Type} (xs : list A) (i : nat) (e : exn) :
  index xs i = Raise e -> e = IndexError.
Proof.
  unfold index; destruct (nth_error xs i); congruence.
Qed.

Lemma py_int_raise (s : string) (e : exn) :
  py_int s = Raise e -> e = invalid_int.
Proof.
  unfold py_int.
  destruct (read_sign (lstrip s)) as [neg s1].
  destruct (read_group 0 s1) as [[[v n] rest] | ]; [ | congruence ].
  destruct (all_space rest); congruence.
Qed.

(** Takes apart a hypothesis [x <- r ;; k = Raise e] where [e] is not an
    error of [index] or [py_int]. *)
Ltac raise_inv H :=
  let a := fresh "v" in
  let Ha := fresh "E" in
  apply bind_raise in H;
  destruct H as [H | (a & Ha & H)];
  [ first [ apply index_raise in H | apply py_int_raise in H ];
    discriminate H | ].

Lemma parse_hit_object_unknown (line : string) :
  HitObject.parse line = Raise HitObject.unknown_type <->
  exists tf hs,
    int_field line 3 = Ok tf /\ int_field line 4 = Ok hs /\
    Z.testbit tf 0 = false /\ Z.testbit tf 7 = false.
Proof.
  unfold HitObject.parse. split.
  - intro H.
    do 4 raise_inv H.
    rewrite mask_bit0, mask_bit7 in H.
    exists v0, v2.
    destruct (Z.testbit v0 0) eqn:B0; [ | destruct (Z.testbit v0 7) eqn:B7 ].
    + do 8 raise_inv H. discriminate H.
    + do 9 raise_inv H. discriminate H.
    + repeat split; eauto using int_field_intro.
  - intros (tf & hs & H3 & H4 & B0 & B7).
    apply int_field_ok in H3, H4.
    destruct H3 as (m3 & I3 & P3), H4 as (m4 & I4 & P4).
    rewrite I3; simpl; rewrite P3; simpl.
    rewrite I4; simpl; rewrite P4; simpl.
    rewrite mask_bit0, mask_bit7, B0, B7. reflexivity.
Qed.

(** ** Splitting and section headers *)

Lemma prefix_char (c d : ascii) (s : string) :
  prefix (String c EmptyString) (String d s) = Ascii.eqb c d.
Proof.
  simpl. destruct (ascii_dec c d) as [-> | Hne].
  - rewrite Ascii.eqb_refl. destruct s; reflexivity.
  - symmetry; apply Ascii.eqb_neq; exact Hne.
Qed.

Lemma string_app_assoc (a b c : string) :
  ((a ++ b) ++ c = a ++ (b ++ c))%string.
Proof.
  induction a as [ | x a IH]; simpl; [ reflexivity | rewrite IH; reflexivity ].
Qed.

(** A text without the separating character is a single piece. *)
Lemma split_go_absent (c : ascii) (s acc : string) :
  ~ In c (list_ascii_of_string s) ->
  split_go (String c EmptyString) 0 acc s = [(acc ++ s)%string].
Proof.
  revert acc; induction s as [ | d s IH]; intros acc Hc.
  - simpl. f_equal. induction acc as [ | x acc IHa]; simpl; congruence.
  - cbn [split_go]. rewrite prefix_char.
    destruct (Ascii.eqb c d) eqn:Hcd.
    + apply Ascii.eqb_eq in Hcd; subst d. exfalso; apply Hc; left; reflexivity.
    + rewrite IH by (intro Hin; apply Hc; right; exact Hin).
      rewrite string_app_assoc; reflexivity.
Qed.

(** The first piece of a split is a prefix of the text. *)
Lemma split_go_head (sep s acc : string) :
  exists p q, s = (p ++ q)%string /\
    hd_error (split_go sep 0 acc s) = Some (acc ++ p)%string.
Proof.
  revert acc; induction s as [ | d s IH]; intro acc.
  - exists EmptyString, EmptyString; split; [ reflexivity | ].
    simpl. do 2 f_equal. induction acc as [ | x acc IHa]; simpl; congruence.
  - cbn [split_go]. destruct (prefix sep (String d s)).
    + exists EmptyString, (String d s); split; [ reflexivity | ].
      simpl. do 2 f_equal. induction acc as [ | x acc IHa]; simpl; congruence.
    + destruct (IH (acc ++ String d EmptyString)%string) as (p & q & Hs & Hh).
      exists (String d p), q; split; [ simpl; congruence | ].
      rewrite Hh, string_app_assoc; reflexivity.
Qed.

(** ** The text that is read *)

Lemma string_app_empty (s : string) : (s ++ EmptyString)%string = s.
Proof.
  induction s as [ | c s IH]; simpl; congruence.
Qed.

(** A text in which the first character of the separator does not occur is
    a single piece. *)
Lemma split_go_first_absent (c : ascii) (sep' s acc : string) :
  ~ In c (chars s) ->
  split_go (String c sep') 0 acc s = [(acc ++ s)%string].
Proof.
  revert acc; induction s as [ | d s IH]; intros acc Hc.
  - simpl. rewrite string_app_empty. reflexivity.
  - cbn [split_go prefix].
    destruct (ascii_dec c d) as [-> | Hne].
    + exfalso; apply Hc; left; reflexivity.
    + rewrite IH by (intro Hin; apply Hc; right; exact Hin).
      rewrite string_app_assoc; reflexivity.
Qed.

(** The same when the second character of a two-character separator does
    not occur. *)
Lemma split_go_second_absent (c1 c2 : ascii) (s acc : string) :
  ~ In c2 (chars s) ->
  split_go (String c1 (String c2 EmptyString)) 0 acc s = [(acc ++ s)%string].
Proof.
  revert acc; induction s as [ | d s IH]; intros acc Hc.
  - simpl. rewrite string_app_empty. reflexivity.
  - assert (Hs : ~ In c2 (chars s)) by (intro Hin; apply Hc; right; exact Hin).
    cbn [split_go].
    assert (Hp : prefix (String c1 (String c2 EmptyString)) (String d s)
                 = false).
    { cbn [prefix]. destruct (ascii_dec c1 d); [ | reflexivity ].
      destruct s as [ | b s2]; [ reflexivity | ].
      cbn [prefix]. destruct (ascii_dec c2 b) as [-> | ]; [ | reflexivity ].
      exfalso; apply Hs; left; reflexivity. }
    rewrite Hp, IH by exact Hs.
    rewrite string_app_assoc; reflexivity.
Qed.

(** Splitting on one character distributes over a text cut at an
    occurrence. *)
Lemma split_char_app (c : ascii) (a b acc : string) :
  split_go (String c EmptyString) 0 acc (a ++ String c b) =
    split_go (String c EmptyString) 0 acc a
      ++ split_go (String c EmptyString) 0 EmptyString b.
Proof.
  revert acc; induction a as [ | d a IH]; intro acc.
  - cbn [append split_go]. rewrite prefix_char, Ascii.eqb_refl. reflexivity.
  - cbn [append split_go]. rewrite !prefix_char.
    destruct (Ascii.eqb c d); rewrite IH; reflexivity.
Qed.

(** A text without carriage return is one line, which no branch of the
    dispatcher reads. *)
Lemma parse_contents_without_cr (contents : string) :
  ~ In cr (chars contents) -> parse_contents contents = Ok Beatmap.default.
Proof.
  intro H. unfold parse_contents, lines_of, split.
  change crlf with (String cr newline).
  rewrite split_go_first_absent by exact H.
  cbn [append filter].
  destruct (keep contents); [ | reflexivity ].
  cbn [run]. unfold step.
  destruct (section_match contents); reflexivity.
Qed.

Lemma universal_newlines_bounded (n : nat) (s : string) :
  (String.length s <= n)%nat -> ~ In cr (chars (universal_newlines s)).
Proof.
  revert s; induction n as [ | n IH]; intros s Hn.
  - destruct s; [ intros [] | simpl in Hn; lia ].
  - destruct s as [ | c r]; [ intros [] | ].
    cbn [String.length] in Hn. cbn [universal_newlines].
    destruct (Ascii.eqb c cr) eqn:Hc.
    + destruct r as [ | d r'].
      * intros [Hf | []]; discriminate Hf.
      * destruct (Ascii.eqb d lf).
        -- intros [Hf | Hin]; [ discriminate Hf | ].
           revert Hin. apply IH. cbn [String.length] in Hn. lia.
        -- intros [Hf | Hin]; [ discriminate Hf | ].
           revert Hin. apply IH. lia.
    + intros [Hf | Hin].
      * apply Ascii.eqb_neq in Hc. congruence.
      * revert Hin. apply IH. lia.
Qed.

(** What [read()] returns holds no carriage return. *)
Lemma read_no_cr (raw contents : string) :
  read raw = Ok contents -> ~ In cr (chars contents).
Proof.
  unfold read. destruct (utf8_valid raw); [ | discriminate ].
  intro H; injection H as <-.
  apply (universal_newlines_bounded (String.length raw)). apply le_n.
Qed.

(** The outcome of [parse_file_sync] by what is at the path. *)
Lemma parse_file_sync_cases (fs : filesystem) (path : string) :
  parse_file_sync fs path =
    match fs path with
    | None =>
        Raise (FileNotFoundError ("File at " ++ path ++ " does not exist!"))
    | Some Directory => Raise IsADirectoryError
    | Some (File raw) =>
        if utf8_valid raw then Ok Beatmap.default
        else Raise UnicodeDecodeError
    end.
Proof.
  unfold parse_file_sync.
  destruct (fs path) as [[raw | ] | ]; try reflexivity.
  destruct (read raw) as [contents | e] eqn:Hr; cbn [bind].
  - rewrite (parse_contents_without_cr _ (read_no_cr _ _ Hr)).
    unfold read in Hr. destruct (utf8_valid raw); [ reflexivity | discriminate Hr ].
  - unfold read in Hr. destruct (utf8_valid raw); [ discriminate Hr | ].
    injection Hr as <-; reflexivity.
Qed.

Lemma parse_file_sync_default (fs : filesystem) (path : string)
  (b : Beatmap.t) :
  parse_file_sync fs path = Ok b -> b = Beatmap.default.
Proof.
  rewrite parse_file_sync_cases.
  destruct (fs path) as [[raw | ] | ]; try discriminate.
  destruct (utf8_valid raw); [ | discriminate ].
  intro H; injection H as <-; reflexivity.
Qed.

(** ** Hit objects *)

(** C7.  Every hit object returned by [HitObject.parse] has a non-empty
    [hit_sound] list.  The list is read off the fifth field: bits 0 to 3
    contribute normal, whistle, finish, clap in that order, and when none of
    the four bits is set the list is exactly [[normal]]. *)
Theorem hit_sound_never_empty (line : string) (h : HitObject.t) :
  HitObject.parse line = Ok h ->
  h.(HitObject.hit_sound) <> [] /\
  exists flags,
    int_field line 4 = Ok flags /\
    h.(HitObject.hit_sound) = spec_hit_sound flags /\
    ((forall s, Z.testbit flags (sound_bit s) = false) ->
     h.(HitObject.hit_sound) = [normal]).
Proof.
  intro H.
  destruct (parse_hit_object_ok _ _ H)
    as (tf & hs & x & y & t & _ & H4 & _ & _ & _ & Hs & _).
  rewrite Hs, hitsounds_of_spec.
  split; [ apply spec_hit_sound_nonempty | ].
  exists hs; repeat split; [ exact H4 | ].
  intro Hnone. unfold spec_hit_sound, flagged_sounds. cbv [filter].
  rewrite (Hnone normal), (Hnone whistle), (Hnone finish), (Hnone clap).
  reflexivity.
Qed.

Lemma hit_sound_never_empty_witness :
  exists h,
    HitObject.parse "192,192,500,128,10,1000:0:0:0:0:" = Ok h /\
    h.(HitObject.hit_sound) = [whistle; clap] /\
    h.(HitObject.hit_sound) <> [].
Proof.
  eexists; split; [ vm_compute; reflexivity | ].
  split; [ reflexivity | ].
  apply (hit_sound_never_empty "192,192,500,128,10,1000:0:0:0:0:").
  vm_compute; reflexivity.
Defined.

(** C1, as the code has it.  For every line accepted by [HitObject.parse]
    the result is a note exactly when bit 0 of the type field is set, and a
    hold exactly when bit 0 is clear and bit 7 is set.  A note has
    [end_time = time].  The [end_time] of a hold is the integer read from
    the first colon-separated component of the sixth field; it is not
    compared with [time]. *)
Theorem end_time_by_kind (line : string) (h : HitObject.t) :
  HitObject.parse line = Ok h ->
  exists tf,
    int_field line 3 = Ok tf /\
    (h.(HitObject.type) = note <-> Z.testbit tf 0 = true) /\
    (h.(HitObject.type) = hold <->
       Z.testbit tf 0 = false /\ Z.testbit tf 7 = true) /\
    (h.(HitObject.type) = note ->
       h.(HitObject.end_time) = h.(HitObject.time)) /\
    (h.(HitObject.type) = hold ->
       exists m5 e0,
         text_field line 5 = Ok m5 /\ index (split ":" m5) 0 = Ok e0 /\
         py_int e0 = Ok h.(HitObject.end_time)).
Proof.
  intro H.
  destruct (parse_hit_object_ok _ _ H)
    as (tf & hs & x & y & t & H3 & _ & _ & _ & _ & _ & _ & _ & Ht & Hk).
  exists tf; split; [ exact H3 | ].
  destruct Hk as [(B0 & Hty & He) | (B0 & B7 & Hty & He)]; rewrite Hty, B0.
  - split; [ tauto | ].
    split; [ split; [ discriminate | intros [Hf _]; discriminate Hf ] | ].
    split; [ congruence | discriminate ].
  - split; [ split; discriminate | ].
    split; [ tauto | ].
    split; [ discriminate | intros _; exact He ].
Qed.

Lemma end_time_by_kind_witness :
  exists h,
    HitObject.parse "64,192,350,1,0,0:0:0:0:" = Ok h /\
    h.(HitObject.type) = note /\
    h.(HitObject.end_time) = h.(HitObject.time).
Proof.
  eexists; split; [ vm_compute; reflexivity | ].
  split; [ reflexivity | ].
  destruct (end_time_by_kind "64,192,350,1,0,0:0:0:0:" _ eq_refl)
    as (tf & _ & _ & _ & Hnote & _).
  apply Hnote; reflexivity.
Defined.

(** C1 as stated fails for holds: this accepted line is a hold that is
    released at 100 ms, before it is hit at 500 ms. *)
Lemma hold_released_before_hit :
  HitObject.parse "0,0,500,128,0,100:0:0:0:0:" =
    Ok {| HitObject.type := hold;
          HitObject.hit_sound := [normal];
          HitObject.new_combo := false;
          HitObject.combo_colors_skipped := 0;
          HitObject.x := 0; HitObject.y := 0;
          HitObject.time := 500; HitObject.end_time := 100 |} /\
  ~ (100 >= 500).
Proof.
  split; [ vm_compute; reflexivity | lia ].
Qed.

(** C10, as the code has it.  On a line whose five common fields are
    integers and whose type field has both bit 0 and bit 7 set, [HitObject.parse] returns a note with
    [end_time = time].  The result is a function of the first five fields
    alone: the sixth field is not read, and may be missing or malformed. *)
Theorem note_bit_has_priority (line : string) (tf hs x y t : Z) :
  int_field line 0 = Ok x -> int_field line 1 = Ok y ->
  int_field line 2 = Ok t -> int_field line 3 = Ok tf ->
  int_field line 4 = Ok hs ->
  Z.testbit tf 0 = true -> Z.testbit tf 7 = true ->
  HitObject.parse line =
    Ok {| HitObject.type := note;
          HitObject.hit_sound := HitObject.hitsounds_of hs;
          HitObject.new_combo := Z.testbit tf 2;
          HitObject.combo_colors_skipped := Z.land tf 28 / 4;
          HitObject.x := x; HitObject.y := y;
          HitObject.time := t; HitObject.end_time := t |} /\
  forall line',
    (forall i, (i < 5)%nat -> text_field line' i = text_field line i) ->
    HitObject.parse line' = HitObject.parse line.
Proof.
  intros H0 H1 H2 H3 H4 B0 _.
  split; [ apply parse_hit_object_note; assumption | ].
  intros line' Hsame.
  rewrite (parse_hit_object_note line tf hs x y t) by assumption.
  apply parse_hit_object_note; try assumption;
    unfold int_field; rewrite Hsame by lia; assumption.
Qed.

Lemma note_bit_has_priority_witness :
  HitObject.parse "64,0,600,129,0,oops" =
    Ok {| HitObject.type := note;
          HitObject.hit_sound := [normal];
          HitObject.new_combo := false;
          HitObject.combo_colors_skipped := 0;
          HitObject.x := 64; HitObject.y := 0;
          HitObject.time := 600; HitObject.end_time := 600 |}.
Proof.
  apply (note_bit_has_priority "64,0,600,129,0,oops" 129 0 64 0 600);
    vm_compute; reflexivity.
Defined.

(** C10 as stated fails when a common field is missing or malformed: both
    bits are set, and the line is rejected before or in spite of the note
    branch. *)
Lemma both_bits_need_common_fields :
  int_field "64,192,350,129" 3 = Ok 129 /\
  Z.testbit 129 0 = true /\ Z.testbit 129 7 = true /\
  HitObject.parse "64,192,350,129" = Raise IndexError /\
  HitObject.parse "64,192,x,129,0" = Raise invalid_int.
Proof.
  repeat split; vm_compute; reflexivity.
Qed.

(** C6, as the code has it.  [HitObject.parse] raises the unknown type
    error exactly when the type field and the hit-sound field are both
    integers and the type has neither bit 0 nor bit 7 set.  The hit-sound
    field is read before the type is looked at: when the type field is an
    integer, a missing hit-sound field raises the index error and a hit-sound
    field that is not an integer raises the error of [int], whatever the type
    bits are.  An error of [HitObject.parse] is the outcome of
    [add_hit_object]: no beatmap is returned. *)
Theorem unknown_type_iff (line : string) :
  (HitObject.parse line = Raise HitObject.unknown_type <->
   exists tf hs,
     int_field line 3 = Ok tf /\ int_field line 4 = Ok hs /\
     Z.testbit tf 0 = false /\ Z.testbit tf 7 = false) /\
  (forall tf,
     int_field line 3 = Ok tf -> text_field line 4 = Raise IndexError ->
     HitObject.parse line = Raise IndexError) /\
  (forall tf m,
     int_field line 3 = Ok tf -> text_field line 4 = Ok m ->
     py_int m = Raise invalid_int ->
     HitObject.parse line = Raise invalid_int) /\
  (forall b e,
     HitObject.parse line = Raise e ->
     Beatmap.add_hit_object b line = Raise e).
Proof.
  split; [ apply parse_hit_object_unknown | ].
  split; [ | split ].
  - intros tf H3 H4. apply int_field_ok in H3. destruct H3 as (m3 & I3 & P3).
    unfold text_field in H4. unfold HitObject.parse.
    rewrite I3; cbn [bind]; rewrite P3; cbn [bind].
    rewrite H4. reflexivity.
  - intros tf m H3 H4 Hm. apply int_field_ok in H3.
    destruct H3 as (m3 & I3 & P3).
    unfold text_field in H4. unfold HitObject.parse.
    rewrite I3; cbn [bind]; rewrite P3; cbn [bind].
    rewrite H4; cbn [bind]. rewrite Hm. reflexivity.
  - intros b e H. unfold Beatmap.add_hit_object. rewrite H. reflexivity.
Qed.

Lemma unknown_type_iff_witness :
  HitObject.parse "64,192,350,2,0,0:0:0:0:" = Raise HitObject.unknown_type /\
  Beatmap.add_hit_object Beatmap.default "64,192,350,2,0,0:0:0:0:"
    = Raise HitObject.unknown_type /\
  HitObject.parse "64,192,350,2" = Raise IndexError /\
  HitObject.parse "64,192,350,1,soft" = Raise invalid_int.
Proof.
  assert (H : HitObject.parse "64,192,350,2,0,0:0:0:0:"
              = Raise HitObject.unknown_type).
  { apply (proj1 (unknown_type_iff "64,192,350,2,0,0:0:0:0:")).
    exists 2, 0. vm_compute. repeat split; reflexivity. }
  split; [ exact H | ].
  split.
  - apply (proj2 (proj2 (proj2 (unknown_type_iff "64,192,350,2,0,0:0:0:0:")))).
    exact H.
  - split.
    + apply (proj1 (proj2 (unknown_type_iff "64,192,350,2")) 2);
        vm_compute; reflexivity.
    + apply (proj1 (proj2 (proj2 (unknown_type_iff "64,192,350,1,soft")))
               1 "soft"%string);
        vm_compute; reflexivity.
Defined.

(** C6 as stated fails on a line that stops after the type field: the type
    has neither bit set, yet the error is the index error of the missing
    hit-sound field. *)
Lemma unknown_type_needs_hit_sound :
  int_field "64,192,350,2" 3 = Ok 2 /\
  Z.testbit 2 0 = false /\ Z.testbit 2 7 = false /\
  HitObject.parse "64,192,350,2" = Raise IndexError /\
  HitObject.parse "64,192,350,2" <> Raise HitObject.unknown_type.
Proof.
  repeat split; try (vm_compute; reflexivity).
  vm_compute; discriminate.
Qed.

(** ** What the two [add_] methods change *)

Lemma add_hit_object_fields (b b' : Beatmap.t) (line : string) :
  Beatmap.add_hit_object b line = Ok b' ->
  exists h,
    HitObject.parse line = Ok h /\
    b'.(Beatmap.hit_objects) = b.(Beatmap.hit_objects) ++ [h] /\
    b'.(Beatmap.key_positions) =
      (if mem h.(HitObject.x) b.(Beatmap.key_positions)
       then b.(Beatmap.key_positions)
       else b.(Beatmap.key_positions) ++ [h.(HitObject.x)]) /\
    b'.(Beatmap.nb_notes) =
      (match h.(HitObject.type) with
       | note => b.(Beatmap.nb_notes) + 1
       | hold => b.(Beatmap.nb_notes)
       end) /\
    b'.(Beatmap.nb_holds) =
      (match h.(HitObject.type) with
       | note => b.(Beatmap.nb_holds)
       | hold => b.(Beatmap.nb_holds) + 1
       end) /\
    b'.(Beatmap.min_bpm) = b.(Beatmap.min_bpm) /\
    b'.(Beatmap.max_bpm) = b.(Beatmap.max_bpm) /\
    b'.(Beatmap.timing_points) = b.(Beatmap.timing_points).
Proof.
  unfold Beatmap.add_hit_object; intro H.
  bind_inv H. injection H as <-. exists v; split; [ exact E | ].
  destruct b; cbn [Beatmap.key_positions Beatmap.nb_notes Beatmap.nb_holds
                   Beatmap.set_nb_notes Beatmap.set_nb_holds].
  destruct (HitObject.type v);
    cbn [Beatmap.key_positions Beatmap.nb_notes Beatmap.nb_holds
         Beatmap.set_nb_notes Beatmap.set_nb_holds];
    destruct (mem (HitObject.x v) key_positions); simpl; repeat split.
Qed.

Lemma add_timing_point_fields (b b' : Beatmap.t) (line : string) :
  Beatmap.add_timing_point b line = Ok b' ->
  exists tp,
    TimingPoint.parse line = Ok tp /\
    b'.(Beatmap.timing_points) = b.(Beatmap.timing_points) ++ [tp] /\
    b'.(Beatmap.min_bpm) =
      (if b.(Beatmap.min_bpm) =? 0
       then match tp.(TimingPoint.bpm) with Some v => v | None => 0 end
       else match tp.(TimingPoint.bpm) with
            | Some v => if v <? b.(Beatmap.min_bpm) then v
                        else b.(Beatmap.min_bpm)
            | None => b.(Beatmap.min_bpm)
            end) /\
    b'.(Beatmap.max_bpm) =
      (if b.(Beatmap.max_bpm) =? 0
       then match tp.(TimingPoint.bpm) with Some v => v | None => 0 end
       else match tp.(TimingPoint.bpm) with
            | Some v => if b.(Beatmap.max_bpm) <? v then v
                        else b.(Beatmap.max_bpm)
            | None => b.(Beatmap.max_bpm)
            end) /\
    b'.(Beatmap.hit_objects) = b.(Beatmap.hit_objects) /\
    b'.(Beatmap.key_positions) = b.(Beatmap.key_positions) /\
    b'.(Beatmap.nb_notes) = b.(Beatmap.nb_notes) /\
    b'.(Beatmap.nb_holds) = b.(Beatmap.nb_holds).
Proof.
  unfold Beatmap.add_timing_point; intro H.
  bind_inv H. injection H as <-. exists v; split; [ exact E | ].
  destruct b, (TimingPoint.bpm v) as [w | ];
    cbn [Beatmap.min_bpm Beatmap.max_bpm];
    destruct (min_bpm =? 0); try destruct (w <? min_bpm);
    cbn [Beatmap.min_bpm Beatmap.max_bpm Beatmap.set_min_bpm];
    destruct (max_bpm =? 0); try destruct (max_bpm <? w);
    repeat split.
Qed.

(** ** Invariants of the two [add_] methods *)

Section CallInvariant.

Variable P : Beatmap.t -> Prop.

Hypothesis P_timing_point : forall b b' line,
  P b -> Beatmap.add_timing_point b line = Ok b' -> P b'.

Hypothesis P_hit_object : forall b b' line,
  P b -> Beatmap.add_hit_object b line = Ok b' -> P b'.

Lemma calls_invariant (cs : list call) (b b' : Beatmap.t) :
  P b -> apply_calls b cs = Ok b' -> P b'.
Proof.
  revert b; induction cs as [ | c cs IH]; intros b HP H; cbn [apply_calls] in H.
  - injection H as <-; exact HP.
  - bind_inv H. apply (IH v); [ | exact H ].
    destruct c as [line | line]; cbn [apply_call] in E;
      [ eapply P_timing_point | eapply P_hit_object ]; eassumption.
Qed.

End CallInvariant.

Lemma parse_contents_ok (contents : string) (b : Beatmap.t) :
  parse_contents contents = Ok b ->
  exists st,
    run (EmptyString, Beatmap.default) (lines_of contents) = Ok st /\
    b = Beatmap.set_key_positions
          (sort (snd st).(Beatmap.key_positions)) (snd st).
Proof.
  unfold parse_contents; intro H. bind_inv H. injection H as <-.
  exists v; split; [ exact E | reflexivity ].
Qed.

(** ** Sorting *)

Lemma mem_In (x : Z) (xs : list Z) : mem x xs = true <-> In x xs.
Proof.
  induction xs as [ | y xs IH]; simpl.
  - split; [ discriminate | intros [] ].
  - rewrite orb_true_iff, Z.eqb_eq, IH. reflexivity.
Qed.

Lemma insert_In (x y : Z) (l : list Z) :
  In y (insert x l) <-> y = x \/ In y l.
Proof.
  induction l as [ | z l IH]; simpl.
  - intuition congruence.
  - destruct (x <=? z); simpl; [ intuition congruence | ].
    rewrite IH. intuition congruence.
Qed.

Lemma sort_In (y : Z) (l : list Z) : In y (sort l) <-> In y l.
Proof.
  induction l as [ | x l IH]; simpl; [ reflexivity | ].
  rewrite insert_In, IH. intuition congruence.
Qed.

Lemma insert_sorted (x : Z) (l : list Z) :
  StronglySorted Z.lt l -> ~ In x l -> StronglySorted Z.lt (insert x l).
Proof.
  induction 1 as [ | z l Hs IH Hz]; intro Hx; simpl.
  - constructor; constructor.
  - destruct (x <=? z) eqn:Hle.
    + apply Z.leb_le in Hle.
      assert (x < z) by (assert (x <> z) by (intro; apply Hx; left; congruence); lia).
      constructor; [ constructor; assumption | ].
      constructor; [ assumption | ].
      eapply Forall_impl; [ | exact Hz ]. simpl; intros; lia.
    + apply Z.leb_gt in Hle.
      constructor.
      * apply IH. intro Hin; apply Hx; right; exact Hin.
      * apply Forall_forall. intros y Hy.
        apply insert_In in Hy. destruct Hy as [-> | Hy]; [ exact Hle | ].
        rewrite Forall_forall in Hz. apply Hz; exact Hy.
Qed.

Lemma sort_sorted (l : list Z) : NoDup l -> StronglySorted Z.lt (sort l).
Proof.
  induction 1 as [ | x l Hx Hnd IH]; simpl.
  - constructor.
  - apply insert_sorted; [ exact IH | ].
    rewrite sort_In; exact Hx.
Qed.

Lemma sorted_NoDup (l : list Z) : StronglySorted Z.lt l -> NoDup l.
Proof.
  induction 1 as [ | z l Hs IH Hz]; constructor; [ | exact IH ].
  intro Hin. rewrite Forall_forall in Hz. specialize (Hz z Hin). lia.
Qed.

(** ** The beatmap *)

(** What one successful [add_hit_object] does to the list and the two
    counters. *)
Lemma add_hit_object_counts (b b' : Beatmap.t) (line : string) :
  Beatmap.add_hit_object b line = Ok b' ->
  List.length b'.(Beatmap.hit_objects)
    = S (List.length b.(Beatmap.hit_objects)) /\
  ((b'.(Beatmap.nb_notes) = b.(Beatmap.nb_notes) + 1 /\
    b'.(Beatmap.nb_holds) = b.(Beatmap.nb_holds)) \/
   (b'.(Beatmap.nb_notes) = b.(Beatmap.nb_notes) /\
    b'.(Beatmap.nb_holds) = b.(Beatmap.nb_holds) + 1)).
Proof.
  intro H.
  destruct (add_hit_object_fields _ _ _ H)
    as (h & _ & Hh & _ & Hn & Hl & _).
  rewrite Hh, Hn, Hl, length_app; simpl.
  split; [ lia | ].
  destruct (HitObject.type h); [ left | right ]; split; reflexivity.
Qed.

(** C8.  [nb_notes + nb_holds] is the length of [hit_objects] in every
    beatmap that [parse_file_sync] returns and in every beatmap built from
    the default one by calls of [add_timing_point] and [add_hit_object]; and
    every successful [add_hit_object] appends exactly one object and adds one
    to exactly one of the two counters. *)
Theorem counters_count_hit_objects :
  (forall fs path b,
     parse_file_sync fs path = Ok b ->
     b.(Beatmap.nb_notes) + b.(Beatmap.nb_holds)
       = Z.of_nat (List.length b.(Beatmap.hit_objects))) /\
  (forall cs b,
     apply_calls Beatmap.default cs = Ok b ->
     b.(Beatmap.nb_notes) + b.(Beatmap.nb_holds)
       = Z.of_nat (List.length b.(Beatmap.hit_objects))) /\
  (forall b line b',
     Beatmap.add_hit_object b line = Ok b' ->
     List.length b'.(Beatmap.hit_objects)
       = S (List.length b.(Beatmap.hit_objects)) /\
     ((b'.(Beatmap.nb_notes) = b.(Beatmap.nb_notes) + 1 /\
       b'.(Beatmap.nb_holds) = b.(Beatmap.nb_holds)) \/
      (b'.(Beatmap.nb_notes) = b.(Beatmap.nb_notes) /\
       b'.(Beatmap.nb_holds) = b.(Beatmap.nb_holds) + 1))).
Proof.
  split; [ | split; [ | intros b line b'; apply add_hit_object_counts ] ].
  - intros fs path b H. apply parse_file_sync_default in H. subst b.
    reflexivity.
  - intros cs b H.
    apply (calls_invariant
             (fun b : Beatmap.t =>
                b.(Beatmap.nb_notes) + b.(Beatmap.nb_holds)
                  = Z.of_nat (List.length b.(Beatmap.hit_objects))))
      with (cs := cs) (b := Beatmap.default);
      [ | | reflexivity | exact H ].
    + intros b0 b' line Hb Ht.
      destruct (add_timing_point_fields _ _ _ Ht)
        as (tp & _ & _ & _ & _ & -> & _ & -> & ->).
      exact Hb.
    + intros b0 b' line Hb Hh.
      destruct (add_hit_object_counts _ _ _ Hh) as [Hlen [[-> ->] | [-> ->]]];
        rewrite Hlen; lia.
Qed.

Lemma counters_count_hit_objects_witness :
  exists b,
    apply_calls Beatmap.default
      [AddHitObject "64,192,350,1,0,0:0:0:0:";
       AddTimingPoint "0,500,4,2,1,60,1,0";
       AddHitObject "192,192,500,128,0,1000:0:0:0:0:"] = Ok b /\
    b.(Beatmap.nb_notes) = 1 /\ b.(Beatmap.nb_holds) = 1 /\
    b.(Beatmap.nb_notes) + b.(Beatmap.nb_holds)
      = Z.of_nat (List.length b.(Beatmap.hit_objects)) /\
    exists b',
      Beatmap.add_hit_object b "320,192,700,128,0,900:0:0:0:0:" = Ok b' /\
      List.length b'.(Beatmap.hit_objects)
        = S (List.length b.(Beatmap.hit_objects)).
Proof.
  eexists; split; [ vm_compute; reflexivity | ].
  split; [ reflexivity | ]. split; [ reflexivity | ].
  split.
  - apply (proj1 (proj2 counters_count_hit_objects)
             [AddHitObject "64,192,350,1,0,0:0:0:0:";
              AddTimingPoint "0,500,4,2,1,60,1,0";
              AddHitObject "192,192,500,128,0,1000:0:0:0:0:"]).
    vm_compute; reflexivity.
  - eexists; split; [ vm_compute; reflexivity | ].
    apply (proj2 (proj2 counters_count_hit_objects) _
             "320,192,700,128,0,900:0:0:0:0:"%string).
    vm_compute; reflexivity.
Defined.

(** C9.  In every beatmap that [parse_file_sync] returns, [key_positions]
    is strictly ascending, without duplicates, and holds exactly the [x]
    values of [hit_objects].  In every beatmap built from the default one by
    calls of [add_timing_point] and [add_hit_object], [key_positions] is
    without duplicates and holds exactly the [x] values of [hit_objects], in
    the order of their first occurrence; once it is sorted, as the last
    statement of [parse_file_sync] does, it is strictly ascending and holds
    the same values. *)
Theorem key_positions_sorted :
  (forall fs path b,
     parse_file_sync fs path = Ok b ->
     StronglySorted Z.lt b.(Beatmap.key_positions) /\
     NoDup b.(Beatmap.key_positions) /\
     forall x,
       In x b.(Beatmap.key_positions) <->
       exists h, In h b.(Beatmap.hit_objects) /\ h.(HitObject.x) = x) /\
  (forall cs b,
     apply_calls Beatmap.default cs = Ok b ->
     (NoDup b.(Beatmap.key_positions) /\
      forall x,
        In x b.(Beatmap.key_positions) <->
        exists h, In h b.(Beatmap.hit_objects) /\ h.(HitObject.x) = x) /\
     let sorted :=
       Beatmap.set_key_positions (sort b.(Beatmap.key_positions)) b in
     StronglySorted Z.lt sorted.(Beatmap.key_positions) /\
     NoDup sorted.(Beatmap.key_positions) /\
     forall x,
       In x sorted.(Beatmap.key_positions) <->
       exists h, In h sorted.(Beatmap.hit_objects) /\ h.(HitObject.x) = x).
Proof.
  split.
  - intros fs path b H. apply parse_file_sync_default in H. subst b.
    simpl. split; [ constructor | ]. split; [ constructor | ].
    intro x; split; [ intros [] | intros (h & [] & _) ].
  - intros cs b H.
    set (P := fun b : Beatmap.t =>
              NoDup b.(Beatmap.key_positions) /\
              forall x,
                In x b.(Beatmap.key_positions) <->
                exists h, In h b.(Beatmap.hit_objects) /\ h.(HitObject.x) = x).
    assert (HP : P b).
    { apply (calls_invariant P) with (cs := cs) (b := Beatmap.default);
        [ | | | exact H ]; unfold P.
      - intros b0 b' line Hb Ht.
        destruct (add_timing_point_fields _ _ _ Ht)
          as (tp & _ & _ & _ & _ & -> & -> & _).
        exact Hb.
      - intros b0 b' line [Hnd Hin] Hh.
        destruct (add_hit_object_fields _ _ _ Hh) as (h & _ & -> & -> & _).
        destruct (mem (HitObject.x h) (Beatmap.key_positions b0)) eqn:Hm.
        + split; [ exact Hnd | ].
          intro x. rewrite Hin. split.
          * intros (h' & Hh' & Hx). exists h'; split; [ | exact Hx ].
            apply in_or_app; left; exact Hh'.
          * intros (h' & Hh' & Hx).
            apply in_app_or in Hh'. destruct Hh' as [Hh' | [<- | []]].
            -- exists h'; split; assumption.
            -- apply mem_In in Hm. apply Hin in Hm. subst x. exact Hm.
        + assert (Hnot : ~ In (HitObject.x h) (Beatmap.key_positions b0)).
          { intro Hi; apply mem_In in Hi; congruence. }
          split.
          * apply NoDup_app; [ exact Hnd | repeat constructor; intros [] | ].
            intros a Ha [<- | []]. apply Hnot; exact Ha.
          * intro x. rewrite in_app_iff, Hin. split.
            -- intros [(h' & Hh' & Hx) | [<- | []]].
               ++ exists h'; split; [ apply in_or_app; left | ]; assumption.
               ++ exists h; split; [ apply in_or_app; right; left | ]; reflexivity.
            -- intros (h' & Hh' & Hx).
               apply in_app_or in Hh'. destruct Hh' as [Hh' | [<- | []]].
               ++ left; exists h'; split; assumption.
               ++ right; left; exact Hx.
      - simpl. split; [ constructor | ].
        intro x; split; [ intros [] | intros (h & [] & _) ]. }
    split; [ exact HP | ].
    destruct HP as [Hnd Hin]. cbv zeta.
    assert (Hs : StronglySorted Z.lt
                   (Beatmap.key_positions
                      (Beatmap.set_key_positions
                         (sort (Beatmap.key_positions b)) b))).
    { destruct b; simpl in *. apply sort_sorted; exact Hnd. }
    split; [ exact Hs | ]. split; [ apply sorted_NoDup; exact Hs | ].
    intro x. destruct b; simpl in *. rewrite sort_In. apply Hin.
Qed.

Lemma key_positions_sorted_witness :
  exists b,
    apply_calls Beatmap.default
      [AddHitObject "448,192,350,1,0,0:0:0:0:";
       AddHitObject "64,192,500,128,0,1000:0:0:0:0:";
       AddHitObject "448,192,900,1,0,0:0:0:0:"] = Ok b /\
    b.(Beatmap.key_positions) = [448; 64] /\
    sort b.(Beatmap.key_positions) = [64; 448] /\
    NoDup b.(Beatmap.key_positions) /\
    StronglySorted Z.lt
      (Beatmap.set_key_positions (sort b.(Beatmap.key_positions)) b)
        .(Beatmap.key_positions).
Proof.
  eexists; split; [ vm_compute; reflexivity | ].
  split; [ reflexivity | ]. split; [ reflexivity | ].
  lazymatch goal with
  | |- NoDup (Beatmap.key_positions ?b) /\ _ =>
      pose proof (proj2 key_positions_sorted
        [AddHitObject "448,192,350,1,0,0:0:0:0:";
         AddHitObject "64,192,500,128,0,1000:0:0:0:0:";
         AddHitObject "448,192,900,1,0,0:0:0:0:"]
        b ltac:(vm_compute; reflexivity)) as [[Hnd _] [Hs _]]
  end.
  split; [ exact Hnd | exact Hs ].
Defined.

(** ** The game mode *)

Lemma index_0_hd {A : Type} (xs : list A) (x : A) :
  index xs 0 = Ok x -> hd_error xs = Some x.
Proof.
  unfold index; destruct xs as [ | y xs]; simpl; congruence.
Qed.

(** A line whose first piece is [Mode] is not a section header. *)
Lemma mode_line_is_data (line : string) :
  index (split ": " line) 0 = Ok "Mode"%string -> section_match line = None.
Proof.
  intro H. apply index_0_hd in H.
  destruct (split_go_head ": " line EmptyString) as (p & q & -> & Hh).
  unfold split in H. rewrite Hh in H. injection H as ->. reflexivity.
Qed.

(** The check of the game mode, where the loop has it: a data line of the
    [General] section that splits on colon-space into the key [Mode] and a
    value other than [3] raises the invalid game mode error. *)
Lemma mode_check_in_the_loop (b : Beatmap.t) (line value : string) :
  index (split ": " line) 0 = Ok "Mode"%string ->
  index (split ": " line ++ [EmptyString]) 1 = Ok value ->
  value <> "3"%string ->
  step ("General"%string, b) line = Raise invalid_mode.
Proof.
  intros Hkey Hval Hne.
  unfold step. rewrite (mode_line_is_data _ Hkey). simpl.
  unfold read_general.
  assert (H0 : index (split ": " line ++ [EmptyString]) 0 = Ok "Mode"%string).
  { revert Hkey. unfold index.
    destruct (split ": " line); simpl; [ discriminate | trivial ]. }
  rewrite H0; simpl. rewrite Hval; simpl.
  apply String.eqb_neq in Hne. rewrite Hne. reflexivity.
Qed.

(** C5 does not hold of the code.  The text that [read()] returns has no
    carriage return, so it is never cut into lines and the check of the game
    mode is never reached: at a path that holds a well-formed text file
    [parse_file_sync] returns the default beatmap, whatever the file says.
    Its only errors are those of the path and of the decoding.  The two
    files below hold a [General] section with the mode 1, one with carriage
    return and line feed between its lines and one with line feeds alone. *)
Theorem wrong_mode_is_not_detected :
  (forall fs path,
     parse_file_sync fs path =
       match fs path with
       | None =>
           Raise (FileNotFoundError ("File at " ++ path ++ " does not exist!"))
       | Some Directory => Raise IsADirectoryError
       | Some (File raw) =>
           if utf8_valid raw then Ok Beatmap.default
           else Raise UnicodeDecodeError
       end) /\
  parse_file_sync
    (single_file "map.osu" ("[General]" ++ crlf ++ "Mode: 1" ++ crlf))
    "map.osu" = Ok Beatmap.default /\
  parse_file_sync
    (single_file "map.osu" ("[General]" ++ newline ++ "Mode: 1" ++ newline))
    "map.osu" = Ok Beatmap.default.
Proof.
  split; [ exact parse_file_sync_cases | ].
  split; vm_compute; reflexivity.
Qed.

(** ** Looking up the active timing point *)

Lemma scan_back_prefix (t : Z) (n : nat) (l r : list TimingPoint.t) :
  (n <= List.length l)%nat ->
  Beatmap.scan_back (l ++ r) t n = Beatmap.scan_back l t n.
Proof.
  induction n as [ | i IH]; intro Hn; simpl; [ reflexivity | ].
  unfold index. rewrite nth_error_app1 by lia.
  destruct (nth_error l i) as [tp | ]; simpl; [ | reflexivity ].
  destruct (TimingPoint.time tp <=? t); [ reflexivity | apply IH; lia ].
Qed.

Lemma scan_back_snoc (t : Z) (l : list TimingPoint.t) (x : TimingPoint.t) :
  Beatmap.scan_back (l ++ [x]) t (List.length (l ++ [x])) =
    if x.(TimingPoint.time) <=? t then Ok (Some x)
    else Beatmap.scan_back l t (List.length l).
Proof.
  rewrite length_app, Nat.add_comm; simpl.
  unfold index. rewrite nth_error_app2, Nat.sub_diag by lia; simpl.
  destruct (TimingPoint.time x <=? t); [ reflexivity | ].
  apply scan_back_prefix; lia.
Qed.

Lemma scan_back_found (t : Z) (pre post : list TimingPoint.t)
  (tp : TimingPoint.t) :
  tp.(TimingPoint.time) <= t ->
  (forall q, In q post -> t < q.(TimingPoint.time)) ->
  Beatmap.scan_back (pre ++ tp :: post) t (List.length (pre ++ tp :: post))
    = Ok (Some tp).
Proof.
  intro Htp. induction post as [ | x post IH] using rev_ind; intro Hpost.
  - change (pre ++ [tp]) with (pre ++ [tp]).
    rewrite scan_back_snoc.
    apply Z.leb_le in Htp; rewrite Htp; reflexivity.
  - replace (pre ++ tp :: post ++ [x]) with ((pre ++ tp :: post) ++ [x])
      by (rewrite <- app_assoc; reflexivity).
    rewrite scan_back_snoc.
    assert (Hx : t < TimingPoint.time x)
      by (apply Hpost, in_or_app; right; left; reflexivity).
    apply Z.leb_gt in Hx; rewrite Hx.
    apply IH. intros q Hq. apply Hpost, in_or_app; left; exact Hq.
Qed.

Lemma scan_back_none (t : Z) (tps : list TimingPoint.t) :
  (forall q, In q tps -> t < q.(TimingPoint.time)) ->
  Beatmap.scan_back tps t (List.length tps) = Ok None.
Proof.
  induction tps as [ | x tps IH] using rev_ind; intro Hall.
  - reflexivity.
  - rewrite scan_back_snoc.
    assert (Hx : t < TimingPoint.time x)
      by (apply Hall, in_or_app; right; left; reflexivity).
    apply Z.leb_gt in Hx; rewrite Hx.
    apply IH. intros q Hq. apply Hall, in_or_app; left; exact Hq.
Qed.

(** The points behind the last one whose time is at most [t], if any. *)
Lemma last_at_most (t : Z) (tps : list TimingPoint.t) :
  (forall q, In q tps -> t < q.(TimingPoint.time)) \/
  exists pre tp post,
    tps = pre ++ tp :: post /\ tp.(TimingPoint.time) <= t /\
    forall q, In q post -> t < q.(TimingPoint.time).
Proof.
  induction tps as [ | x tps IH] using rev_ind.
  - left; intros q [].
  - destruct (Z_le_gt_dec (TimingPoint.time x) t) as [Hle | Hgt].
    + right; exists tps, x, []; repeat split; [ exact Hle | intros q [] ].
    + destruct IH as [Hall | (pre & tp & post & -> & Htp & Hpost)].
      * left; intros q Hq. apply in_app_or in Hq.
        destruct Hq as [Hq | [<- | []]]; [ apply Hall; exact Hq | lia ].
      * right; exists pre, tp, (post ++ [x]); repeat split.
        -- rewrite <- app_assoc; reflexivity.
        -- exact Htp.
        -- intros q Hq. apply in_app_or in Hq.
           destruct Hq as [Hq | [<- | []]]; [ apply Hpost; exact Hq | lia ].
Qed.

Lemma sorted_after {R : TimingPoint.t -> TimingPoint.t -> Prop}
  (pre post : list TimingPoint.t) (tp : TimingPoint.t) :
  StronglySorted R (pre ++ tp :: post) -> Forall (R tp) post.
Proof.
  induction pre as [ | x pre IH]; simpl; intro H; inversion H; subst; auto.
Qed.

(** C4, as the code has it.  On a non-empty list [get_timing_point]
    always returns a point of the list: the last one whose time is at most
    [t], or the first point of the list when no time is at most [t].  Hence
    a query at or after the time of the last point returns the last point.
    When the times ascend in list order, a query before the time of the first
    point returns the first point; when they ascend strictly, a query at the
    time of a point returns that point. *)
Theorem get_timing_point_spec (self : Beatmap.t) (t : Z)
  (first : TimingPoint.t) (rest : list TimingPoint.t) :
  self.(Beatmap.timing_points) = first :: rest ->
  (exists tp,
     Beatmap.get_timing_point self t = Ok tp /\
     In tp self.(Beatmap.timing_points)) /\
  (forall pre tp post,
     self.(Beatmap.timing_points) = pre ++ tp :: post ->
     tp.(TimingPoint.time) <= t ->
     (forall q, In q post -> t < q.(TimingPoint.time)) ->
     Beatmap.get_timing_point self t = Ok tp) /\
  ((forall q, In q self.(Beatmap.timing_points) -> t < q.(TimingPoint.time)) ->
   Beatmap.get_timing_point self t = Ok first) /\
  (forall pre last,
     self.(Beatmap.timing_points) = pre ++ [last] ->
     last.(TimingPoint.time) <= t ->
     Beatmap.get_timing_point self t = Ok last) /\
  (ascending self.(Beatmap.timing_points) ->
   t < first.(TimingPoint.time) ->
   Beatmap.get_timing_point self t = Ok first) /\
  (strictly_ascending self.(Beatmap.timing_points) ->
   forall pre tp post,
     self.(Beatmap.timing_points) = pre ++ tp :: post ->
     t = tp.(TimingPoint.time) ->
     Beatmap.get_timing_point self t = Ok tp).
Proof.
  intro Htps.
  assert (Hfound : forall pre tp post,
     self.(Beatmap.timing_points) = pre ++ tp :: post ->
     tp.(TimingPoint.time) <= t ->
     (forall q, In q post -> t < q.(TimingPoint.time)) ->
     Beatmap.get_timing_point self t = Ok tp).
  { intros pre tp post E Htp Hpost. unfold Beatmap.get_timing_point.
    rewrite E, scan_back_found by assumption. reflexivity. }
  assert (Hnone :
     (forall q, In q self.(Beatmap.timing_points) -> t < q.(TimingPoint.time)) ->
     Beatmap.get_timing_point self t = Ok first).
  { intro Hall. unfold Beatmap.get_timing_point.
    rewrite scan_back_none by exact Hall. rewrite Htps; reflexivity. }
  split; [ | split; [ exact Hfound | split; [ exact Hnone | split; [ | split ] ] ] ].
  - destruct (last_at_most t self.(Beatmap.timing_points))
      as [Hall | (pre & tp & post & E & Htp & Hpost)].
    + exists first; split; [ apply Hnone; exact Hall | ].
      rewrite Htps; left; reflexivity.
    + exists tp; split; [ eapply Hfound; eassumption | ].
      rewrite E; apply in_or_app; right; left; reflexivity.
  - intros pre last E Hlast.
    apply (Hfound pre last []); [ exact E | exact Hlast | intros q [] ].
  - intros Hasc Hlt. apply Hnone.
    rewrite Htps in *. inversion Hasc as [ | ? ? _ Hall ]; subst.
    rewrite Forall_forall in Hall.
    intros q [<- | Hq]; [ exact Hlt | ].
    specialize (Hall q Hq). simpl in Hall. lia.
  - intros Hasc pre tp post E ->.
    apply (Hfound pre tp post); [ exact E | lia | ].
    unfold strictly_ascending in Hasc. rewrite E in Hasc.
    apply sorted_after in Hasc. rewrite Forall_forall in Hasc. exact Hasc.
Qed.

Lemma get_timing_point_spec_witness :
  exists b p1 p2,
    apply_calls Beatmap.default
      [AddTimingPoint "320,500,4,2,1,60,1,0";
       AddTimingPoint "1000,-50,4,2,0,40,0,0"] = Ok b /\
    b.(Beatmap.timing_points) = [p1; p2] /\
    Beatmap.get_timing_point b 1000 = Ok p2.
Proof.
  eexists; eexists; eexists.
  split; [ vm_compute; reflexivity | ].
  split; [ reflexivity | ].
  lazymatch goal with
  | |- Beatmap.get_timing_point ?b _ = Ok ?p2 =>
      pose proof (get_timing_point_spec b 1000 _ _ eq_refl)
        as (_ & _ & _ & Hlast & _);
      apply (Hlast [_] p2 eq_refl)
  end.
  vm_compute; discriminate.
Defined.

(** C4 as stated fails when the times do not ascend.  In this beatmap,
    built by two calls of [add_timing_point] and equally by the body of
    [parse_file_sync] on the two lines, the first point starts at 100 ms and
    the second at 50 ms; the query 70 lies before the time of the first
    point, and the answer is the second point. *)
Lemma query_before_first_point :
  exists b p1 p2,
    (b1 <- Beatmap.add_timing_point Beatmap.default "100,500,4,2,1,60,1,0" ;;
     Beatmap.add_timing_point b1 "50,-50,4,2,0,40,0,0") = Ok b /\
    parse_contents
      ("[TimingPoints]" ++ crlf ++ "100,500,4,2,1,60,1,0" ++ crlf
         ++ "50,-50,4,2,0,40,0,0") = Ok b /\
    b.(Beatmap.timing_points) = [p1; p2] /\
    70 < p1.(TimingPoint.time) /\
    p2.(TimingPoint.time) = 50 /\
    Beatmap.get_timing_point b 70 = Ok p2 /\
    Beatmap.get_timing_point b 70 <> Ok p1.
Proof.
  eexists; eexists; eexists.
  split; [ vm_compute; reflexivity | ].
  split; [ vm_compute; reflexivity | ].
  split; [ reflexivity | ].
  split; [ reflexivity | ].
  split; [ reflexivity | ].
  split; [ vm_compute; reflexivity | ].
  vm_compute; discriminate.
Qed.

(** ** Tempo and velocity *)

Lemma binary_round_aux_sign (s : bool) (m e : Z) (l : location) :
  sign_is s (binary_round_aux 53 1024 s m e l).
Proof.
  unfold binary_round_aux.
  destruct (shr_fexp 53 1024 m e l) as [mrs' e'].
  destruct (shr_fexp 53 1024 _ e' loc_Exact) as [mrs'' e''].
  destruct (shr_m mrs''); [ | destruct (Z.leb e'' _) | ]; simpl; trivial.
Qed.

Lemma binary_round_aux_abs (s : bool) (m e : Z) (l : location) :
  SFabs (binary_round_aux 53 1024 s m e l) = binary_round_aux 53 1024 false m e l.
Proof.
  unfold binary_round_aux.
  destruct (shr_fexp 53 1024 m e l) as [mrs' e'].
  destruct (shr_fexp 53 1024 _ e' loc_Exact) as [mrs'' e''].
  destruct (shr_m mrs''); [ | destruct (Z.leb e'' _) | ]; reflexivity.
Qed.

(** The quotient of two positive floats is not negative. *)
Lemma div_sign (mx : positive) (ex : Z) (y : float) :
  gt0 y = true -> sign_is false (SFdiv 53 1024 (S754_finite false mx ex) y).
Proof.
  destruct y as [s | s | | s my ey]; try discriminate;
    destruct s; try discriminate; intros _.
  - reflexivity.
  - unfold SFdiv.
    destruct (SFdiv_core_binary 53 1024 (Z.pos mx) ex (Z.pos my) ey)
      as [[mz ez] lz].
    apply binary_round_aux_sign.
Qed.

(** [|x / y| = x / |y|] for a positive [x]. *)
Lemma abs_div (mx : positive) (ex : Z) (y : float) :
  SFabs (SFdiv 53 1024 (S754_finite false mx ex) y)
  = SFdiv 53 1024 (S754_finite false mx ex) (SFabs y).
Proof.
  destruct y as [s | s | | s my ey]; try reflexivity.
  unfold SFabs at 2. unfold SFdiv.
  destruct (SFdiv_core_binary 53 1024 (Z.pos mx) ex (Z.pos my) ey)
    as [[mz ez] lz].
  apply binary_round_aux_abs.
Qed.

Lemma round_magnitude_nonneg (m : positive) (e : Z) :
  0 <= (if 0 <=? e then Z.pos m * 2 ^ e
        else
          let d := 2 ^ (- e) in
          let q := Z.pos m / d in
          let r := Z.pos m mod d in
          match 2 * r ?= d with
          | Lt => q
          | Gt => q + 1
          | Eq => if Z.even q then q else q + 1
          end).
Proof.
  destruct (0 <=? e) eqn:He.
  - apply Z.leb_le in He.
    apply Z.mul_nonneg_nonneg; [ lia | apply Z.pow_nonneg; lia ].
  - apply Z.leb_gt in He. cbv zeta.
    assert (Hd : 0 < 2 ^ (- e)) by (apply Z.pow_pos_nonneg; lia).
    assert (Hq : 0 <= Z.pos m / 2 ^ (- e)) by (apply Z.div_pos; lia).
    destruct (2 * (Z.pos m mod 2 ^ (- e)) ?= 2 ^ (- e));
      [ destruct (Z.even _) | | ]; lia.
Qed.

Lemma round_nonneg (x : float) (r : Z) :
  sign_is false x -> round x = Ok r -> 0 <= r.
Proof.
  destruct x as [s | s | | s m e]; unfold round, sign_is; intros Hs H;
    try discriminate H.
  - injection H as <-; lia.
  - subst s. pose proof (round_magnitude_nonneg m e) as Hmag.
    injection H as <-. exact Hmag.
Qed.

Lemma float_60000 :
  float_of_int 60000 = S754_finite false 8246337208320000 (-37).
Proof. vm_compute; reflexivity. Qed.

Lemma float_100 :
  float_of_int 100 = S754_finite false 7036874417766400 (-46).
Proof. vm_compute; reflexivity. Qed.

Lemma tempo_gt0 (b : float) :
  gt0 b = true ->
  TimingPoint.tempo b =
    (r <- round (SFdiv 53 1024 (float_of_int 60000) b) ;; Ok (r, one)).
Proof.
  intro H. unfold TimingPoint.tempo, truediv. rewrite H.
  destruct b as [s | s | | s m e]; try discriminate H; reflexivity.
Qed.

Lemma tempo_bpm_nonneg (b : float) (bpm : Z) (v : float) :
  TimingPoint.tempo b = Ok (bpm, v) -> 0 <= bpm.
Proof.
  unfold TimingPoint.tempo. destruct (gt0 b) eqn:Hb; intro H.
  - unfold truediv in H.
    destruct (is_zero b); [ discriminate H | ]. cbn [bind] in H.
    bind_inv H. injection H as <- _.
    rewrite float_60000 in E.
    eapply round_nonneg; [ | exact E ]. apply div_sign; exact Hb.
  - bind_inv H. injection H as <- _. lia.
Qed.

(** ** [TimingPoint.parse] *)

Lemma float_field_ok (line : string) (i : nat) (b : float) :
  float_field line i = Ok b ->
  exists m, index (split "," line) i = Ok m /\ py_float m = Ok b.
Proof.
  unfold float_field, text_field; intro H; bind_inv H; eauto.
Qed.

(** On a line whose fields are well formed, the result is the record of
    the fields with the tempo and velocity that [tempo] derives from the
    beat length. *)
Lemma parse_timing_point_fields (line : string) (b : float)
  (time sig ss si vol eff : Z) (u : string) :
  float_field line 1 = Ok b ->
  int_field line 0 = Ok time -> int_field line 2 = Ok sig ->
  int_field line 3 = Ok ss -> int_field line 4 = Ok si ->
  int_field line 5 = Ok vol -> text_field line 6 = Ok u ->
  int_field line 7 = Ok eff ->
  TimingPoint.parse line =
    (bv <- TimingPoint.tempo b ;;
     Ok (timing_point_of time sig ss si vol eff u
           (if fst bv =? 0 then None else Some (fst bv)) (snd bv))).
Proof.
  intros H1 H0 H2 H3 H4 H5 H6 H7.
  apply float_field_ok in H1. apply int_field_ok in H0, H2, H3, H4, H5, H7.
  destruct H1 as (m1 & I1 & P1), H0 as (m0 & I0 & P0), H2 as (m2 & I2 & P2),
    H3 as (m3 & I3 & P3), H4 as (m4 & I4 & P4), H5 as (m5 & I5 & P5),
    H7 as (m7 & I7 & P7).
  unfold text_field in H6.
  unfold TimingPoint.parse.
  rewrite I1; cbn [bind]; rewrite P1; cbn [bind].
  destruct (TimingPoint.tempo b) as [[bpm vel] | e]; cbn [bind]; [ | reflexivity ].
  rewrite I7; cbn [bind]; rewrite P7; cbn [bind].
  rewrite I0; cbn [bind]; rewrite P0; cbn [bind].
  rewrite I2; cbn [bind]; rewrite P2; cbn [bind].
  rewrite I3; cbn [bind]; rewrite P3; cbn [bind].
  rewrite I4; cbn [bind]; rewrite P4; cbn [bind].
  rewrite I5; cbn [bind]; rewrite P5; cbn [bind].
  rewrite H6; cbn [bind].
  rewrite mask_bit0, mask_bit2. reflexivity.
Qed.

(** A tempo that is present is positive. *)
Lemma parse_timing_point_bpm (line : string) (tp : TimingPoint.t) (v : Z) :
  TimingPoint.parse line = Ok tp -> tp.(TimingPoint.bpm) = Some v -> 0 < v.
Proof.
  unfold TimingPoint.parse; intros H Hv.
  do 3 bind_inv H. destruct v2 as [bpm vel].
  apply tempo_bpm_nonneg in E1.
  do 13 bind_inv H. injection H as <-.
  cbn [TimingPoint.bpm] in Hv.
  destruct (bpm =? 0) eqn:Hb; [ discriminate Hv | ].
  injection Hv as <-. apply Z.eqb_neq in Hb. lia.
Qed.

Lemma tempo_le0 (b : float) :
  le0 b = true ->
  TimingPoint.tempo b =
    (q <- truediv (float_of_int 100) (SFabs b) ;; Ok (0, q)).
Proof.
  intro H. unfold TimingPoint.tempo, truediv.
  rewrite float_100.
  destruct b as [s | s | | s m e]; try discriminate H;
    destruct s; try discriminate H; cbn [gt0 SFcompare is_zero SFabs bind];
    try reflexivity; rewrite abs_div; reflexivity.
Qed.

Lemma tempo_lt0 (b : float) :
  lt0 b = true ->
  TimingPoint.tempo b = Ok (0, SFdiv 53 1024 (float_of_int 100) (SFabs b)).
Proof.
  intro H.
  assert (Hle : le0 b = true)
    by (destruct b as [s | s | | s m e]; try discriminate H;
        destruct s; try discriminate H; reflexivity).
  rewrite (tempo_le0 b Hle). unfold truediv.
  destruct b as [s | s | | s m e]; try discriminate H; reflexivity.
Qed.

Lemma tempo_zero (b : float) :
  is_zero b = true -> TimingPoint.tempo b = Raise ZeroDivisionError.
Proof.
  destruct b as [s | s | | s m e]; try discriminate; reflexivity.
Qed.

Lemma round_magnitude_nearest (m : positive) (e : Z) :
  let a :=
    if 0 <=? e then Z.pos m * 2 ^ e
    else
      let d := 2 ^ (- e) in
      let q := Z.pos m / d in
      let r := Z.pos m mod d in
      match 2 * r ?= d with
      | Lt => q
      | Gt => q + 1
      | Eq => if Z.even q then q else q + 1
      end in
  (0 <= e -> a = Z.pos m * 2 ^ e) /\
  (e < 0 ->
   2 * Z.abs (a * 2 ^ (- e) - Z.pos m) <= 2 ^ (- e) /\
   (2 * Z.abs (a * 2 ^ (- e) - Z.pos m) = 2 ^ (- e) -> Z.even a = true)).
Proof.
  cbv zeta.
  destruct (0 <=? e) eqn:He.
  - apply Z.leb_le in He. split; [ reflexivity | lia ].
  - apply Z.leb_gt in He. split; [ lia | ]. intros _.
    assert (Hd : 0 < 2 ^ (- e)) by (apply Z.pow_pos_nonneg; lia).
    pose proof (Z.div_mod (Z.pos m) (2 ^ (- e)) ltac:(lia)) as Hdm.
    pose proof (Z.mod_pos_bound (Z.pos m) (2 ^ (- e)) Hd) as Hr.
    destruct (2 * (Z.pos m mod 2 ^ (- e)) ?= 2 ^ (- e)) eqn:Hc.
    + apply Z.compare_eq in Hc.
      destruct (Z.even (Z.pos m / 2 ^ (- e))) eqn:Hq.
      * split; [ lia | intros _; exact Hq ].
      * split; [ lia | intros _ ].
        rewrite Z.add_1_r, Z.even_succ, <- Z.negb_even, Hq. reflexivity.
    + pose proof (proj1 (Z.compare_lt_iff _ _) Hc) as Hlt.
      split; [ lia | intro Habs; exfalso; lia ].
    + pose proof (proj1 (Z.compare_gt_iff _ _) Hc) as Hgt.
      split; [ lia | intro Habs; exfalso; lia ].
Qed.

(** [round] gives the nearest integer, the even one of two that are
    equally near. *)
Lemma round_nearest_even (s : bool) (m : positive) (e : Z) (r : Z) :
  round (S754_finite s m e) = Ok r ->
  exists a,
    r = (if s then - a else a) /\ 0 <= a /\
    (0 <= e -> a = Z.pos m * 2 ^ e) /\
    (e < 0 ->
     2 * Z.abs (a * 2 ^ (- e) - Z.pos m) <= 2 ^ (- e) /\
     (2 * Z.abs (a * 2 ^ (- e) - Z.pos m) = 2 ^ (- e) -> Z.even a = true)).
Proof.
  unfold round. intro H.
  pose proof (round_magnitude_nonneg m e) as Hnn.
  pose proof (round_magnitude_nearest m e) as Hnear. cbv zeta in Hnear.
  injection H as <-.
  eexists. split; [ reflexivity | ]. split; [ exact Hnn | exact Hnear ].
Qed.

(** C3, as the code has it.  Take a timing-point line with at least eight
    fields whose fields 0, 2, 3, 4, 5 and 7 are integers and whose beat
    length field is the float [b].  If [b > 0] and [60000 / b] has an integer
    value, the line is accepted with [bpm = round(60000 / b)], absent when
    that is 0, and velocity 1.0; if [b > 0] and [60000 / b] is infinite, the
    overflow error of [round] is raised.  If [b < 0] the line is accepted with
    [bpm] absent and velocity [100 / |b|].  If [b] is zero the division
    raises.  The text [u] of the uninherited field only fills the field
    [uninherited]: a line that differs in that field alone has the same tempo
    and velocity.  [round] is the nearest integer, ties to even. *)
Theorem tempo_from_sign (line : string) (b : float)
  (time sig ss si vol eff : Z) (u : string) :
  float_field line 1 = Ok b ->
  int_field line 0 = Ok time -> int_field line 2 = Ok sig ->
  int_field line 3 = Ok ss -> int_field line 4 = Ok si ->
  int_field line 5 = Ok vol -> text_field line 6 = Ok u ->
  int_field line 7 = Ok eff ->
  (gt0 b = true ->
   forall r,
     round (SFdiv 53 1024 (float_of_int 60000) b) = Ok r ->
     TimingPoint.parse line =
       Ok (timing_point_of time sig ss si vol eff u
             (if r =? 0 then None else Some r)
             (S754_finite false 4503599627370496 (-52)))) /\
  (gt0 b = true ->
   SFdiv 53 1024 (float_of_int 60000) b = S754_infinity false ->
   TimingPoint.parse line = Raise OverflowError) /\
  (lt0 b = true ->
   TimingPoint.parse line =
     Ok (timing_point_of time sig ss si vol eff u
           None (SFdiv 53 1024 (float_of_int 100) (SFabs b)))) /\
  (is_zero b = true -> TimingPoint.parse line = Raise ZeroDivisionError) /\
  (forall line' u',
     (forall i, i <> 6%nat -> text_field line' i = text_field line i) ->
     text_field line' 6 = Ok u' ->
     tempo_of (TimingPoint.parse line') = tempo_of (TimingPoint.parse line)) /\
  (forall s m e r,
     round (S754_finite s m e) = Ok r ->
     exists a,
       r = (if s then - a else a) /\ 0 <= a /\
       (0 <= e -> a = Z.pos m * 2 ^ e) /\
       (e < 0 ->
        2 * Z.abs (a * 2 ^ (- e) - Z.pos m) <= 2 ^ (- e) /\
        (2 * Z.abs (a * 2 ^ (- e) - Z.pos m) = 2 ^ (- e) ->
         Z.even a = true))).
Proof.
  intros H1 H0 H2 H3 H4 H5 H6 H7.
  rewrite (parse_timing_point_fields line b time sig ss si vol eff u)
    by assumption.
  repeat apply conj.
  - intros Hb r Hr. rewrite tempo_gt0 by exact Hb.
    rewrite Hr. reflexivity.
  - intros Hb Hq. rewrite tempo_gt0 by exact Hb.
    rewrite Hq. reflexivity.
  - intro Hb. rewrite tempo_lt0 by exact Hb. reflexivity.
  - intro Hb. rewrite tempo_zero by exact Hb. reflexivity.
  - intros line' u' Hsame H6'.
    rewrite (parse_timing_point_fields line' b time sig ss si vol eff u');
      try assumption;
      try (unfold float_field, int_field; rewrite Hsame by discriminate;
           assumption).
    destruct (TimingPoint.tempo b) as [[bpm vel] | e]; reflexivity.
  - exact round_nearest_even.
Qed.

Lemma tempo_from_sign_witness :
  TimingPoint.parse "320,789.473684210526,4,2,1,60,1,0" =
    Ok (timing_point_of 320 4 2 1 60 0 "1" (Some 76) one) /\
  TimingPoint.parse "1000,-50,4,2,0,40,0,0" =
    Ok (timing_point_of 1000 4 2 0 40 0 "0" None (float_of_int 2)).
Proof.
  split.
  - assert (H := tempo_from_sign "320,789.473684210526,4,2,1,60,1,0"
                   (S754_finite false 6944283964901050 (-43))
                   320 4 2 1 60 0 "1").
    do 8 (specialize (H ltac:(vm_compute; reflexivity))).
    rewrite (proj1 H ltac:(vm_compute; reflexivity) 76)
      by (vm_compute; reflexivity).
    vm_compute; reflexivity.
  - assert (H := tempo_from_sign "1000,-50,4,2,0,40,0,0"
                   (S754_finite true 7036874417766400 (-47))
                   1000 4 2 0 40 0 "0").
    do 8 (specialize (H ltac:(vm_compute; reflexivity))).
    rewrite (proj1 (proj2 (proj2 H))) by (vm_compute; reflexivity).
    vm_compute; reflexivity.
Defined.

(** C3 as stated fails in three ways.  A positive beat length so small that
    [60000 / b] is infinite makes [round] raise; a beat length of zero, which
    satisfies [b <= 0], makes the division raise; and a line that stops after
    the beat length is rejected with an index error whatever the sign.  An
    infinite beat length gives the tempo 0, which is stored as absent. *)
Lemma beat_length_edge_cases :
  (float_field "0,1e-320,4,2,0,40,1,0" 1 = Ok (S754_finite false 2024 (-1074)) /\
   gt0 (S754_finite false 2024 (-1074)) = true /\
   TimingPoint.parse "0,1e-320,4,2,0,40,1,0" = Raise OverflowError) /\
  (float_field "0,0,4,2,0,40,0,0" 1 = Ok (S754_zero false) /\
   le0 (S754_zero false) = true /\
   TimingPoint.parse "0,0,4,2,0,40,0,0" = Raise ZeroDivisionError) /\
  (float_field "0,500" 1 = Ok (float_of_int 500) /\
   gt0 (float_of_int 500) = true /\
   TimingPoint.parse "0,500" = Raise IndexError) /\
  tempo_of (TimingPoint.parse "0,inf,4,2,0,40,1,0") = Ok (None, one).
Proof.
  repeat split; vm_compute; reflexivity.
Qed.

(** ** The tempo range *)

(** C2, as the code has it.  In every beatmap built from the default one
    by calls of [add_timing_point] and [add_hit_object]: if some timing point
    carries a tempo (its beat length was positive and the rounded tempo not
    zero), then [0 < min_bpm <= max_bpm] and every tempo lies between the
    two; if no timing point carries a tempo, both are 0.  The uninherited
    field plays no part. *)
Theorem bpm_range (cs : list call) (b : Beatmap.t) :
  apply_calls Beatmap.default cs = Ok b ->
  ((exists tp, In tp b.(Beatmap.timing_points) /\ has_bpm tp) ->
   0 < b.(Beatmap.min_bpm) /\ 0 < b.(Beatmap.max_bpm) /\
   b.(Beatmap.min_bpm) <= b.(Beatmap.max_bpm) /\
   forall tp v,
     In tp b.(Beatmap.timing_points) -> tp.(TimingPoint.bpm) = Some v ->
     b.(Beatmap.min_bpm) <= v <= b.(Beatmap.max_bpm)) /\
  ((forall tp, In tp b.(Beatmap.timing_points) -> tp.(TimingPoint.bpm) = None) ->
   b.(Beatmap.min_bpm) = 0 /\ b.(Beatmap.max_bpm) = 0).
Proof.
  intro Hrun.
  set (Q := fun b : Beatmap.t =>
    (b.(Beatmap.min_bpm) = 0 /\ b.(Beatmap.max_bpm) = 0 /\
     forall tp, In tp b.(Beatmap.timing_points) -> tp.(TimingPoint.bpm) = None)
    \/
    (0 < b.(Beatmap.min_bpm) /\ b.(Beatmap.min_bpm) <= b.(Beatmap.max_bpm) /\
     (exists tp, In tp b.(Beatmap.timing_points) /\ has_bpm tp) /\
     forall tp v,
       In tp b.(Beatmap.timing_points) -> tp.(TimingPoint.bpm) = Some v ->
       b.(Beatmap.min_bpm) <= v <= b.(Beatmap.max_bpm))).
  assert (HQ : Q b).
  { apply (calls_invariant Q) with (cs := cs) (b := Beatmap.default);
      [ | | | exact Hrun ]; unfold Q; clear Q Hrun b.
    - intros b b' line Hb Ht.
      destruct (add_timing_point_fields _ _ _ Ht)
        as (tp & Hp & -> & -> & -> & _).
      assert (Hpos : forall v, TimingPoint.bpm tp = Some v -> 0 < v)
        by (intro v; apply (parse_timing_point_bpm line tp v Hp)).
      destruct Hb as [(Hmin & Hmax & Hnone) | (Hmin & Hmax & Hex & Hall)].
      + rewrite Hmin, Hmax; simpl.
        destruct (TimingPoint.bpm tp) as [w | ] eqn:Hw.
        * right. specialize (Hpos w eq_refl).
          split; [ exact Hpos | ]. split; [ lia | ].
          split; [ exists tp; split;
                   [ apply in_or_app; right; left; reflexivity
                   | unfold has_bpm; congruence ] | ].
          intros tp' v Hin Hv. apply in_app_or in Hin.
          destruct Hin as [Hin | [<- | []]].
          -- rewrite (Hnone tp' Hin) in Hv; discriminate Hv.
          -- rewrite Hw in Hv; injection Hv as <-; lia.
        * left. repeat split.
          intros tp' Hin. apply in_app_or in Hin.
          destruct Hin as [Hin | [<- | []]]; [ apply Hnone; exact Hin | exact Hw ].
      + right.
        assert (Hex' : exists tp0,
                  In tp0 (Beatmap.timing_points b ++ [tp]) /\ has_bpm tp0).
        { destruct Hex as (tp0 & Hin0 & Hb0).
          exists tp0; split; [ apply in_or_app; left; exact Hin0 | exact Hb0 ]. }
        assert (E1 : (Beatmap.min_bpm b =? 0) = false) by (apply Z.eqb_neq; lia).
        assert (E2 : (Beatmap.max_bpm b =? 0) = false) by (apply Z.eqb_neq; lia).
        rewrite E1, E2.
        destruct (TimingPoint.bpm tp) as [w | ] eqn:Hw.
        * specialize (Hpos w eq_refl).
          destruct (w <? Beatmap.min_bpm b) eqn:C1;
            destruct (Beatmap.max_bpm b <? w) eqn:C2;
            try apply Z.ltb_lt in C1; try apply Z.ltb_ge in C1;
            try apply Z.ltb_lt in C2; try apply Z.ltb_ge in C2;
            (split; [ lia | ]; split; [ lia | ]; split; [ exact Hex' | ];
             intros tp' v Hin Hv; apply in_app_or in Hin;
             destruct Hin as [Hin | [<- | []]];
             [ specialize (Hall tp' v Hin Hv); lia
             | rewrite Hw in Hv; injection Hv as <-; lia ]).
        * split; [ exact Hmin | ]. split; [ exact Hmax | ].
          split; [ exact Hex' | ].
          intros tp' v Hin Hv. apply in_app_or in Hin.
          destruct Hin as [Hin | [<- | []]];
            [ apply Hall with tp'; assumption
            | rewrite Hw in Hv; discriminate Hv ].
    - intros b b' line Hb Hh.
      destruct (add_hit_object_fields _ _ _ Hh)
        as (h & _ & _ & _ & _ & _ & -> & -> & ->).
      exact Hb.
    - left; simpl; repeat split. intros tp []. }
  unfold Q in HQ.
  split.
  - intros (tp & Hin & Hbpm).
    destruct HQ as [(_ & _ & Hnone) | (Hmin & Hmax & _ & Hall)].
    + exfalso; apply Hbpm, Hnone; exact Hin.
    + repeat split; try lia; apply (Hall tp0 v); assumption.
  - intro Hnone.
    destruct HQ as [(Hmin & Hmax & _) | (_ & _ & (tp & Hin & Hbpm) & _)];
      [ split; assumption | ].
    exfalso; apply Hbpm, Hnone; exact Hin.
Qed.

Lemma bpm_range_witness :
  exists b,
    apply_calls Beatmap.default
      [AddTimingPoint "0,500,4,2,1,60,1,0";
       AddTimingPoint "1000,-50,4,2,0,40,0,0";
       AddHitObject "64,192,350,1,0,0:0:0:0:";
       AddTimingPoint "2000,250,4,2,1,60,1,0"] = Ok b /\
    b.(Beatmap.min_bpm) = 120 /\ b.(Beatmap.max_bpm) = 240 /\
    0 < b.(Beatmap.min_bpm) /\ 0 < b.(Beatmap.max_bpm) /\
    b.(Beatmap.min_bpm) <= b.(Beatmap.max_bpm).
Proof.
  eexists; split; [ vm_compute; reflexivity | ].
  split; [ reflexivity | ]. split; [ reflexivity | ].
  lazymatch goal with
  | |- 0 < Beatmap.min_bpm ?b /\ _ =>
      pose proof (bpm_range
        [AddTimingPoint "0,500,4,2,1,60,1,0";
         AddTimingPoint "1000,-50,4,2,0,40,0,0";
         AddHitObject "64,192,350,1,0,0:0:0:0:";
         AddTimingPoint "2000,250,4,2,1,60,1,0"]
        b ltac:(vm_compute; reflexivity)) as [Hsome _]
  end.
  destruct Hsome as (Hmin & Hmax & Hle & _).
  - eexists; split; [ left; reflexivity | vm_compute; discriminate ].
  - split; [ exact Hmin | split; [ exact Hmax | exact Hle ] ].
Defined.

(** C2 as stated fails when a point is marked uninherited and has a
    negative beat length: the mark is stored, no tempo is, and both bounds
    stay at 0. *)
Lemma uninherited_without_tempo :
  exists b tp,
    Beatmap.add_timing_point Beatmap.default "1000,-50,4,2,0,40,1,0" = Ok b /\
    b.(Beatmap.timing_points) = [tp] /\
    text_field "1000,-50,4,2,0,40,1,0" 6 = Ok "1"%string /\
    tp.(TimingPoint.uninherited) = true /\
    b.(Beatmap.min_bpm) = 0 /\ b.(Beatmap.max_bpm) = 0 /\
    ~ (b.(Beatmap.min_bpm) > 0).
Proof.
  eexists; eexists.
  split; [ vm_compute; reflexivity | ].
  split; [ reflexivity | ].
  split; [ vm_compute; reflexivity | ].
  split; [ reflexivity | ].
  split; [ reflexivity | ].
  split; [ reflexivity | ].
  simpl; lia.
Qed.

(** * Further properties *)

(** ** Line terminators, comments and unknown sections *)

(** X1.  The text is cut into lines at carriage-return line-feed pairs
    only.  A text without any carriage return is therefore a single line,
    which can at most be a section header: parsing it never fails and returns
    the default beatmap, whatever the text holds.  The text that [read()]
    delivers is of this kind, so [parse_file_sync] returns the default
    beatmap at every path that holds a well-formed text file. *)
Theorem text_without_cr_is_one_line :
  (forall contents,
     ~ In cr (chars contents) ->
     parse_contents contents = Ok Beatmap.default) /\
  (forall fs path raw,
     fs path = Some (File raw) -> utf8_valid raw = true ->
     parse_file_sync fs path = Ok Beatmap.default).
Proof.
  split; [ exact parse_contents_without_cr | ].
  intros fs path raw Hf Hv.
  rewrite parse_file_sync_cases, Hf, Hv. reflexivity.
Qed.

Lemma text_without_cr_is_one_line_witness :
  parse_contents
    ("[General]" ++ newline ++ "Mode: 1" ++ newline ++ "[HitObjects]"
       ++ newline ++ "64,192,350,1,0,0:0:0:0:")
  = Ok Beatmap.default /\
  parse_file_sync
    (single_file "map.osu"
       ("[HitObjects]" ++ crlf ++ "64,192,350,1,0,0:0:0:0:" ++ crlf))
    "map.osu"
  = Ok Beatmap.default.
Proof.
  split.
  - apply (proj1 text_without_cr_is_one_line).
    vm_compute. intuition discriminate.
  - apply (proj2 text_without_cr_is_one_line
             (single_file "map.osu"
                ("[HitObjects]" ++ crlf ++ "64,192,350,1,0,0:0:0:0:" ++ crlf))
             "map.osu"%string
             ("[HitObjects]" ++ crlf ++ "64,192,350,1,0,0:0:0:0:" ++ crlf)%string);
      vm_compute; reflexivity.
Defined.

(** X3.  Data lines under a header that is none of General, Metadata,
    Difficulty, TimingPoints and HitObjects, and data lines in front of the
    first header, are skipped: they never fail and leave the beatmap and the
    current section as they are. *)
Theorem unknown_section_is_skipped (sec : string) (b : Beatmap.t)
  (lines : list string) :
  known_section sec = false ->
  Forall (fun l => section_match l = None) lines ->
  run (sec, b) lines = Ok (sec, b).
Proof.
  intros Hsec Hdata. unfold known_section in Hsec.
  repeat (apply orb_false_iff in Hsec; destruct Hsec as [Hsec ?]).
  induction Hdata as [ | l lines Hl _ IH]; [ reflexivity | ].
  cbn [run]. unfold step. rewrite Hl.
  repeat match goal with
         | E : String.eqb sec _ = false |- _ => rewrite E; clear E
         end.
  cbn [bind]. exact IH.
Qed.

Lemma unknown_section_is_skipped_witness :
  run ("Events"%string, Beatmap.default)
      ["0,0,bg.jpg,0,0"; "Mode: 1"; "not,a,hit,object"]%string
  = Ok ("Events"%string, Beatmap.default).
Proof.
  apply unknown_section_is_skipped.
  - reflexivity.
  - repeat constructor.
Defined.

(** ** What a sequence of calls builds *)

(** X4.  After a sequence of calls of [add_timing_point] and
    [add_hit_object] that all succeed, [hit_objects] is the list from before
    followed by the parses of the lines given to [add_hit_object], in the
    order of the calls, and [timing_points] the list from before followed by
    the parses of the lines given to [add_timing_point]: no line is dropped,
    reordered or added. *)
Theorem lists_follow_the_calls (cs : list call) (b b' : Beatmap.t) :
  apply_calls b cs = Ok b' ->
  (exists hs,
     b'.(Beatmap.hit_objects) = b.(Beatmap.hit_objects) ++ hs /\
     Forall2 (fun l h => HitObject.parse l = Ok h) (hit_object_lines cs) hs) /\
  (exists tps,
     b'.(Beatmap.timing_points) = b.(Beatmap.timing_points) ++ tps /\
     Forall2 (fun l tp => TimingPoint.parse l = Ok tp)
       (timing_point_lines cs) tps).
Proof.
  revert b; induction cs as [ | c cs IH]; intros b H; cbn [apply_calls] in H.
  - injection H as <-. split; exists []; rewrite app_nil_r;
      split; try reflexivity; constructor.
  - bind_inv H.
    destruct (IH _ H) as [(hs & Hhs & Fh) (tps & Htps & Ft)].
    destruct c as [line | line]; cbn [apply_call] in E;
      cbn [hit_object_lines timing_point_lines].
    + destruct (add_timing_point_fields _ _ _ E)
        as (tp & Hp & Hb1 & _ & _ & Hh & _).
      split.
      * exists hs. split; [ rewrite Hhs, Hh; reflexivity | exact Fh ].
      * exists (tp :: tps). split.
        -- rewrite Htps, Hb1, <- app_assoc. reflexivity.
        -- constructor; assumption.
    + destruct (add_hit_object_fields _ _ _ E)
        as (h & Hp & Hb1 & _ & _ & _ & _ & _ & Ht).
      split.
      * exists (h :: hs). split.
        -- rewrite Hhs, Hb1, <- app_assoc. reflexivity.
        -- constructor; assumption.
      * exists tps. split; [ rewrite Htps, Ht; reflexivity | exact Ft ].
Qed.

Lemma lists_follow_the_calls_witness :
  exists b,
    apply_calls Beatmap.default
      [AddHitObject "64,192,350,1,0,0:0:0:0:";
       AddTimingPoint "0,500,4,2,1,60,1,0";
       AddHitObject "192,192,500,128,0,1000:0:0:0:0:"] = Ok b /\
    exists hs,
      b.(Beatmap.hit_objects) = [] ++ hs /\
      Forall2 (fun l h => HitObject.parse l = Ok h)
        ["64,192,350,1,0,0:0:0:0:"; "192,192,500,128,0,1000:0:0:0:0:"]%string
        hs.
Proof.
  eexists; split; [ vm_compute; reflexivity | ].
  apply (lists_follow_the_calls
           [AddHitObject "64,192,350,1,0,0:0:0:0:";
            AddTimingPoint "0,500,4,2,1,60,1,0";
            AddHitObject "192,192,500,128,0,1000:0:0:0:0:"]
           Beatmap.default).
  vm_compute; reflexivity.
Defined.

(** ** Derived statistics *)

Lemma filter_snoc {A : Type} (f : A -> bool) (l : list A) (x : A) :
  filter f (l ++ [x]) = filter f l ++ (if f x then [x] else []).
Proof.
  rewrite filter_app. reflexivity.
Qed.

(** X6.  In every beatmap built from the default one by calls of
    [add_timing_point] and [add_hit_object], [nb_notes] is the number of
    notes in [hit_objects] and [nb_holds] the number of holds. *)
Theorem counters_by_kind (cs : list call) (b : Beatmap.t) :
  apply_calls Beatmap.default cs = Ok b ->
  b.(Beatmap.nb_notes)
    = Z.of_nat (List.length (filter is_note b.(Beatmap.hit_objects))) /\
  b.(Beatmap.nb_holds)
    = Z.of_nat (List.length (filter is_hold b.(Beatmap.hit_objects))).
Proof.
  intro Hrun.
  set (P := fun b : Beatmap.t =>
    b.(Beatmap.nb_notes)
      = Z.of_nat (List.length (filter is_note b.(Beatmap.hit_objects))) /\
    b.(Beatmap.nb_holds)
      = Z.of_nat (List.length (filter is_hold b.(Beatmap.hit_objects)))).
  assert (HP : P b).
  { apply (calls_invariant P) with (cs := cs) (b := Beatmap.default);
      [ | | split; reflexivity | exact Hrun ]; unfold P; clear P Hrun b.
    - intros b b' line Hb Ht.
      destruct (add_timing_point_fields _ _ _ Ht)
        as (tp & _ & _ & _ & _ & -> & _ & -> & ->).
      exact Hb.
    - intros b b' line [Hn Hh] Hadd.
      destruct (add_hit_object_fields _ _ _ Hadd)
        as (h & _ & -> & _ & -> & -> & _).
      rewrite !filter_snoc, !length_app.
      destruct (HitObject.type h) eqn:Hty.
      + assert (E1 : is_note h = true) by (unfold is_note; rewrite Hty; reflexivity).
        assert (E2 : is_hold h = false) by (unfold is_hold; rewrite Hty; reflexivity).
        rewrite E1, E2; cbn [List.length]; lia.
      + assert (E1 : is_note h = false) by (unfold is_note; rewrite Hty; reflexivity).
        assert (E2 : is_hold h = true) by (unfold is_hold; rewrite Hty; reflexivity).
        rewrite E1, E2; cbn [List.length]; lia. }
  exact HP.
Qed.

Lemma counters_by_kind_witness :
  exists b,
    apply_calls Beatmap.default
      [AddHitObject "64,192,350,1,0,0:0:0:0:";
       AddHitObject "192,192,500,128,0,1000:0:0:0:0:";
       AddHitObject "320,192,700,128,0,900:0:0:0:0:"] = Ok b /\
    b.(Beatmap.nb_holds) = 2 /\
    b.(Beatmap.nb_holds)
      = Z.of_nat (List.length (filter is_hold b.(Beatmap.hit_objects))).
Proof.
  eexists; split; [ vm_compute; reflexivity | ].
  split; [ reflexivity | ].
  apply (counters_by_kind
           [AddHitObject "64,192,350,1,0,0:0:0:0:";
            AddHitObject "192,192,500,128,0,1000:0:0:0:0:";
            AddHitObject "320,192,700,128,0,900:0:0:0:0:"]).
  vm_compute; reflexivity.
Defined.

(** X7.  In every beatmap built from the default one by calls of
    [add_timing_point] and [add_hit_object], a bound that is not 0 is the
    tempo of one of the timing points: [min_bpm] and [max_bpm] are values
    that occur, not mere estimates. *)
Theorem bpm_bounds_are_attained (cs : list call) (b : Beatmap.t) :
  apply_calls Beatmap.default cs = Ok b ->
  (b.(Beatmap.min_bpm) <> 0 ->
   exists tp, In tp b.(Beatmap.timing_points) /\
              tp.(TimingPoint.bpm) = Some b.(Beatmap.min_bpm)) /\
  (b.(Beatmap.max_bpm) <> 0 ->
   exists tp, In tp b.(Beatmap.timing_points) /\
              tp.(TimingPoint.bpm) = Some b.(Beatmap.max_bpm)).
Proof.
  intro Hrun.
  set (P := fun b : Beatmap.t =>
    (b.(Beatmap.min_bpm) <> 0 ->
     exists tp, In tp b.(Beatmap.timing_points) /\
                tp.(TimingPoint.bpm) = Some b.(Beatmap.min_bpm)) /\
    (b.(Beatmap.max_bpm) <> 0 ->
     exists tp, In tp b.(Beatmap.timing_points) /\
                tp.(TimingPoint.bpm) = Some b.(Beatmap.max_bpm))).
  assert (HP : P b).
  { apply (calls_invariant P) with (cs := cs) (b := Beatmap.default);
      [ | | | exact Hrun ]; unfold P; clear P Hrun b.
    - intros b b' line [Hmin Hmax] Ht.
      destruct (add_timing_point_fields _ _ _ Ht)
        as (tp & _ & -> & -> & -> & _).
      assert (Hold : forall v,
                (exists tp0, In tp0 (Beatmap.timing_points b) /\
                             TimingPoint.bpm tp0 = Some v) ->
                exists tp0, In tp0 (Beatmap.timing_points b ++ [tp]) /\
                            TimingPoint.bpm tp0 = Some v).
      { intros v (tp0 & Hin & Hv). exists tp0; split;
          [ apply in_or_app; left; exact Hin | exact Hv ]. }
      assert (Hnew : forall v, TimingPoint.bpm tp = Some v ->
                exists tp0, In tp0 (Beatmap.timing_points b ++ [tp]) /\
                            TimingPoint.bpm tp0 = Some v).
      { intros v Hv. exists tp; split;
          [ apply in_or_app; right; left; reflexivity | exact Hv ]. }
      split.
      + destruct (Beatmap.min_bpm b =? 0) eqn:E0.
        * destruct (TimingPoint.bpm tp) as [w | ] eqn:Hw;
            [ intros _; apply Hnew; reflexivity | intro Hc; congruence ].
        * apply Z.eqb_neq in E0.
          destruct (TimingPoint.bpm tp) as [w | ] eqn:Hw;
            [ destruct (w <? Beatmap.min_bpm b) | ];
            intros _; try (apply Hnew; reflexivity);
            apply Hold, Hmin; exact E0.
      + destruct (Beatmap.max_bpm b =? 0) eqn:E0.
        * destruct (TimingPoint.bpm tp) as [w | ] eqn:Hw;
            [ intros _; apply Hnew; reflexivity | intro Hc; congruence ].
        * apply Z.eqb_neq in E0.
          destruct (TimingPoint.bpm tp) as [w | ] eqn:Hw;
            [ destruct (Beatmap.max_bpm b <? w) | ];
            intros _; try (apply Hnew; reflexivity);
            apply Hold, Hmax; exact E0.
    - intros b b' line Hb Hh.
      destruct (add_hit_object_fields _ _ _ Hh)
        as (h & _ & _ & _ & _ & _ & -> & -> & ->).
      exact Hb.
    - simpl. split; intro Hc; congruence. }
  exact HP.
Qed.

Lemma bpm_bounds_are_attained_witness :
  exists b,
    apply_calls Beatmap.default
      [AddTimingPoint "0,500,4,2,1,60,1,0";
       AddTimingPoint "2000,250,4,2,1,60,1,0"] = Ok b /\
    b.(Beatmap.max_bpm) = 240 /\
    exists tp, In tp b.(Beatmap.timing_points) /\
               tp.(TimingPoint.bpm) = Some b.(Beatmap.max_bpm).
Proof.
  eexists; split; [ vm_compute; reflexivity | ].
  split; [ reflexivity | ].
  apply (bpm_bounds_are_attained
           [AddTimingPoint "0,500,4,2,1,60,1,0";
            AddTimingPoint "2000,250,4,2,1,60,1,0"]).
  - vm_compute; reflexivity.
  - vm_compute; discriminate.
Defined.

(** ** Fields that are never written *)

Lemma step_source (st st' : state) (line : string) :
  step st line = Ok st' ->
  (snd st').(Beatmap.source) = (snd st).(Beatmap.source).
Proof.
  destruct st as [sec b]; unfold step; intro H.
  destruct (section_match line); [ injection H as <-; reflexivity | ].
  repeat match type of H with
         | (if ?c then _ else _) = _ => destruct c
         end;
    try (bind_inv H; injection H as <-; cbn [snd]);
    [ unfold read_general in E
    | unfold read_metadata in E
    | unfold read_difficulty in E
    | unfold Beatmap.add_timing_point in E
    | unfold Beatmap.add_hit_object in E
    | injection H as <-; reflexivity ];
    bind_inv E;
    repeat match type of E with
           | (if ?c then _ else _) = _ => destruct c
           | bind _ _ = Ok _ => bind_inv E
           end;
    try discriminate E; injection E as <-; destruct b; cbn;
    repeat match goal with
           | |- context [match ?x with _ => _ end] => destruct x; cbn
           end;
    reflexivity.
Qed.

(** X8.  No branch of the dispatcher writes the field [source]: whatever
    text the body of [parse_file_sync] is given, also one with a [Source]
    line in its [Metadata] section, the field is the empty text in the
    beatmap it returns; and so it is in every beatmap that [parse_file_sync]
    returns. *)
Theorem source_is_never_set :
  (forall contents b,
     parse_contents contents = Ok b -> b.(Beatmap.source) = EmptyString) /\
  (forall fs path b,
     parse_file_sync fs path = Ok b -> b.(Beatmap.source) = EmptyString).
Proof.
  split.
  - intros contents b H.
    apply parse_contents_ok in H; destruct H as (st & Hrun & ->).
    assert (Hs : forall lines s s',
               run s lines = Ok s' ->
               (snd s').(Beatmap.source) = (snd s).(Beatmap.source)).
    { induction lines as [ | l lines IH]; intros s s' Hr; cbn [run] in Hr.
      - injection Hr as <-; reflexivity.
      - bind_inv Hr. rewrite (IH _ _ Hr). eapply step_source; eassumption. }
    specialize (Hs _ _ _ Hrun). destruct (snd st); exact Hs.
  - intros fs path b H. apply parse_file_sync_default in H. subst b.
    reflexivity.
Qed.

Lemma source_is_never_set_witness :
  exists b,
    parse_contents
      ("[Metadata]" ++ crlf ++ "Title:Song" ++ crlf ++ "Source:Game")
    = Ok b /\
    b.(Beatmap.title) = "Song"%string /\
    b.(Beatmap.source) = EmptyString.
Proof.
  eexists; split; [ vm_compute; reflexivity | ].
  split; [ reflexivity | ].
  apply (proj1 source_is_never_set
           ("[Metadata]" ++ crlf ++ "Title:Song" ++ crlf ++ "Source:Game")%string).
  vm_compute; reflexivity.
Defined.

(** ** [get_timing_point] on the empty list *)

Lemma scan_back_no_error (tps : list TimingPoint.t) (t : Z) (n : nat) :
  (n <= List.length tps)%nat ->
  exists r, Beatmap.scan_back tps t n = Ok r.
Proof.
  induction n as [ | i IH]; intro Hn; cbn [Beatmap.scan_back].
  - exists None; reflexivity.
  - unfold index.
    destruct (nth_error tps i) as [tp | ] eqn:Hi.
    + cbn [bind]. destruct (TimingPoint.time tp <=? t);
        [ exists (Some tp); reflexivity | apply IH; lia ].
    + apply nth_error_None in Hi. lia.
Qed.

(** X9.  [get_timing_point] fails exactly on a beatmap without timing
    points, and then with the index error of [timing_points[0]]; this holds
    for every query time. *)
Theorem get_timing_point_fails_iff_empty (self : Beatmap.t) (t : Z) :
  (self.(Beatmap.timing_points) = [] <->
   Beatmap.get_timing_point self t = Raise IndexError) /\
  (forall e, Beatmap.get_timing_point self t = Raise e ->
             self.(Beatmap.timing_points) = [] /\ e = IndexError).
Proof.
  assert (Hfail : forall e, Beatmap.get_timing_point self t = Raise e ->
             self.(Beatmap.timing_points) = [] /\ e = IndexError).
  { intros e H. unfold Beatmap.get_timing_point in H.
    destruct (scan_back_no_error self.(Beatmap.timing_points) t
                (List.length self.(Beatmap.timing_points)) (le_n _))
      as (r & Hr).
    rewrite Hr in H; cbn [bind] in H.
    destruct r as [tp | ]; [ discriminate H | ].
    destruct (Beatmap.timing_points self) as [ | tp tps];
      [ | discriminate H ].
    injection H as <-. split; reflexivity. }
  split; [ split | exact Hfail ].
  - intro He. unfold Beatmap.get_timing_point. rewrite He. reflexivity.
  - intro H. apply (Hfail _ H).
Qed.

Lemma get_timing_point_fails_iff_empty_witness :
  Beatmap.get_timing_point Beatmap.default 1000 = Raise IndexError.
Proof.
  apply (proj1 (proj1 (get_timing_point_fails_iff_empty Beatmap.default 1000))).
  reflexivity.
Defined.

(** ** What an accepted line looks like *)

Lemma index_length {A : Type} (xs : list A) (i : nat) (x : A) :
  index xs i = Ok x -> (i < List.length xs)%nat.
Proof.
  unfold index. destruct (nth_error xs i) eqn:Hi; [ | discriminate ].
  intros _. apply nth_error_Some. congruence.
Qed.

(** X10.  A timing-point line is only accepted when it has at least eight
    comma-separated fields.  Fields 0, 2, 3, 4 and 5 are integers and are
    copied to [time], [timing_signature], [sample_set], [sample_index] and
    [volume]; [kiai_time] is bit 0 and [omit_first_bar_line] bit 2 of the
    integer in field 7; [uninherited] is true only if field 6 is the one
    character [1], with no white space around it. *)
Theorem accepted_timing_point (line : string) (tp : TimingPoint.t) :
  TimingPoint.parse line = Ok tp ->
  (8 <= List.length (split "," line))%nat /\
  int_field line 0 = Ok tp.(TimingPoint.time) /\
  int_field line 2 = Ok tp.(TimingPoint.timing_signature) /\
  int_field line 3 = Ok tp.(TimingPoint.sample_set) /\
  int_field line 4 = Ok tp.(TimingPoint.sample_index) /\
  int_field line 5 = Ok tp.(TimingPoint.volume) /\
  exists u eff,
    text_field line 6 = Ok u /\
    (tp.(TimingPoint.uninherited) = true <-> u = "1"%string) /\
    int_field line 7 = Ok eff /\
    tp.(TimingPoint.kiai_time) = Z.testbit eff 0 /\
    tp.(TimingPoint.omit_first_bar_line) = Z.testbit eff 2.
Proof.
  unfold TimingPoint.parse; intro H.
  do 3 bind_inv H.
  match type of H with
  | (let (_, _) := ?bv in _) = _ => destruct bv as [bpm vel]
  end.
  do 13 bind_inv H. injection H as <-.
  cbn [TimingPoint.time TimingPoint.timing_signature TimingPoint.sample_set
       TimingPoint.sample_index TimingPoint.volume TimingPoint.uninherited
       TimingPoint.kiai_time TimingPoint.omit_first_bar_line].
  split; [ apply (index_length _ 7 _ E2) | ].
  repeat (split; [ solve [ eauto using int_field_intro ] | ]).
  exists v13, v2.
  split; [ exact E14 | ].
  split; [ apply String.eqb_eq | ].
  split; [ eauto using int_field_intro | ].
  rewrite mask_bit0, mask_bit2. split; reflexivity.
Qed.

Lemma accepted_timing_point_witness :
  exists tp,
    TimingPoint.parse "1000,-50,4,2,0,40, 1,5" = Ok tp /\
    tp.(TimingPoint.uninherited) = false /\
    tp.(TimingPoint.kiai_time) = true /\
    int_field "1000,-50,4,2,0,40, 1,5" 0 = Ok tp.(TimingPoint.time).
Proof.
  eexists; split; [ vm_compute; reflexivity | ].
  split; [ reflexivity | ]. split; [ reflexivity | ].
  apply (accepted_timing_point "1000,-50,4,2,0,40, 1,5").
  vm_compute; reflexivity.
Defined.

Lemma abs_sign (x : float) : sign_is false (SFabs x).
Proof. destruct x; simpl; trivial. Qed.

(** X11.  In an accepted timing point the velocity is never negative (it
    is NaN when the beat length is NaN), and a tempo that is present is
    positive and comes with the velocity 1.0: a point never has both a tempo
    and a velocity of its own. *)
Theorem tempo_excludes_velocity (line : string) (tp : TimingPoint.t) :
  TimingPoint.parse line = Ok tp ->
  sign_is false tp.(TimingPoint.velocity) /\
  forall v, tp.(TimingPoint.bpm) = Some v ->
            0 < v /\ tp.(TimingPoint.velocity) = one.
Proof.
  unfold TimingPoint.parse; intro H.
  do 3 bind_inv H.
  match type of H with
  | (let (_, _) := ?bv in _) = _ => destruct bv as [bpm vel]
  end.
  assert (Hvel : sign_is false vel /\ (bpm <> 0 -> 0 < bpm /\ vel = one)).
  { pose proof (tempo_bpm_nonneg _ _ _ E1) as Hnn.
    unfold TimingPoint.tempo in E1.
    destruct (gt0 v0).
    - do 2 bind_inv E1. injection E1 as <- <-.
      split; [ reflexivity | intro; split; [ lia | reflexivity ] ].
    - bind_inv E1. injection E1 as <- <-.
      split; [ apply abs_sign | intro Hc; congruence ]. }
  do 13 bind_inv H. injection H as <-.
  cbn [TimingPoint.velocity TimingPoint.bpm].
  split; [ apply Hvel | ].
  intros w Hw. destruct (bpm =? 0) eqn:Hz; [ discriminate Hw | ].
  injection Hw as <-. apply Z.eqb_neq in Hz. apply Hvel; exact Hz.
Qed.

Lemma tempo_excludes_velocity_witness :
  exists tp,
    TimingPoint.parse "320,789.473684210526,4,2,1,60,1,0" = Ok tp /\
    tp.(TimingPoint.bpm) = Some 76 /\
    tp.(TimingPoint.velocity) = one.
Proof.
  eexists; split; [ vm_compute; reflexivity | ].
  split; [ reflexivity | ].
  apply (proj2 (tempo_excludes_velocity
                  "320,789.473684210526,4,2,1,60,1,0" _
                  ltac:(vm_compute; reflexivity)) 76).
  reflexivity.
Defined.

(** X12.  A hit-object line is only accepted when it has at least five
    comma-separated fields, and at least six when the result is a hold: a
    line that stops after the type field is rejected with an index error even
    if its type is a note. *)
Theorem accepted_hit_object_fields (line : string) (h : HitObject.t) :
  HitObject.parse line = Ok h ->
  (5 <= List.length (split "," line))%nat /\
  (h.(HitObject.type) = hold -> (6 <= List.length (split "," line))%nat).
Proof.
  intro H.
  destruct (parse_hit_object_ok _ _ H)
    as (tf & hs & x & y & t & _ & H4 & _ & _ & _ & _ & _ & _ & _ & Hk).
  apply int_field_ok in H4. destruct H4 as (m4 & I4 & _).
  split; [ apply (index_length _ 4 _ I4) | ].
  intro Hty.
  destruct Hk as [(_ & Hn & _) | (_ & _ & _ & m5 & e0 & I5 & _)];
    [ congruence | ].
  apply (index_length _ 5 _ I5).
Qed.

Lemma accepted_hit_object_fields_witness :
  exists h,
    HitObject.parse "192,192,500,128,0,1000" = Ok h /\
    h.(HitObject.type) = hold /\
    (6 <= List.length (split "," "192,192,500,128,0,1000"))%nat.
Proof.
  eexists; split; [ vm_compute; reflexivity | ].
  split; [ reflexivity | ].
  apply (accepted_hit_object_fields "192,192,500,128,0,1000" _
           ltac:(vm_compute; reflexivity)).
  reflexivity.
Defined.

(** ** The combo fields of a hit object *)

Lemma parse_hit_object_combo (line : string) (h : HitObject.t) :
  HitObject.parse line = Ok h ->
  exists tf,
    int_field line 3 = Ok tf /\
    h.(HitObject.new_combo) = Z.testbit tf 2 /\
    h.(HitObject.combo_colors_skipped) = Z.land tf 28 / 4.
Proof.
  unfold HitObject.parse; intro H.
  do 4 bind_inv H.
  rewrite mask_bit2 in H.
  exists v0. split; [ eauto using int_field_intro | ].
  destruct (negb (Z.land v0 1 =? 0));
    [ | destruct (negb (Z.land v0 128 =? 0)); [ | discriminate H ] ].
  - do 8 bind_inv H. injection H as <-. split; reflexivity.
  - do 9 bind_inv H. injection H as <-. split; reflexivity.
Qed.

Lemma small_mask_bound (k : Z) : 0 <= k < 32 -> 0 <= Z.land k 28 / 4 <= 7.
Proof.
  intro Hk.
  assert (Hn : exists n, k = Z.of_nat n /\ (n < 32)%nat)
    by (exists (Z.to_nat k); lia).
  destruct Hn as (n & -> & Hn).
  do 32 (destruct n as [ | n]; [ vm_compute; split; discriminate | ]).
  lia.
Qed.

Lemma combo_mask (tf : Z) :
  0 <= Z.land tf 28 / 4 <= 7 /\
  forall k, 0 <= k ->
    Z.testbit (Z.land tf 28 / 4) k = Z.testbit tf (k + 2) && (k <? 3).
Proof.
  split.
  - replace (Z.land tf 28) with (Z.land (tf mod 32) 28).
    + apply small_mask_bound. apply Z.mod_pos_bound. lia.
    + change 32 with (2 ^ 5). rewrite <- Z.land_ones by lia.
      rewrite <- Z.land_assoc. reflexivity.
  - intros k Hk.
    change 4 with (2 ^ 2). rewrite Z.div_pow2_bits by lia.
    rewrite Z.land_spec. f_equal.
    destruct (k <? 3) eqn:Hlt.
    + apply Z.ltb_lt in Hlt.
      assert (Hc : k = 0 \/ k = 1 \/ k = 2) by lia.
      destruct Hc as [-> | [-> | ->]]; reflexivity.
    + apply Z.ltb_ge in Hlt.
      replace (k + 2) with ((k - 3) + 5) by lia.
      change 28 with (28 mod 2 ^ 5) .
      apply Z.mod_pow2_bits_high. lia.
Qed.

(** X13.  In an accepted hit object [combo_colors_skipped] lies between 0
    and 7 and is made of bits 2, 3 and 4 of the type field.  Its lowest bit is
    the new-combo bit itself, so the value is odd exactly when [new_combo]
    is set. *)
Theorem combo_colors_skipped_range (line : string) (h : HitObject.t) :
  HitObject.parse line = Ok h ->
  0 <= h.(HitObject.combo_colors_skipped) <= 7 /\
  Z.odd h.(HitObject.combo_colors_skipped) = h.(HitObject.new_combo) /\
  exists tf,
    int_field line 3 = Ok tf /\
    h.(HitObject.combo_colors_skipped) =
      Z.b2z (Z.testbit tf 2) + 2 * Z.b2z (Z.testbit tf 3)
        + 4 * Z.b2z (Z.testbit tf 4).
Proof.
  intro H.
  destruct (parse_hit_object_combo _ _ H) as (tf & H3 & -> & ->).
  destruct (combo_mask tf) as [Hr Hb].
  split; [ exact Hr | ].
  split.
  - rewrite <- Z.bit0_odd, (Hb 0) by lia. apply andb_true_r.
  - exists tf. split; [ exact H3 | ].
    pose proof (Hb 0 ltac:(lia)) as B0.
    pose proof (Hb 1 ltac:(lia)) as B1.
    pose proof (Hb 2 ltac:(lia)) as B2.
    simpl Z.add in B0, B1, B2. rewrite andb_true_r in B0, B1, B2.
    rewrite <- B0, <- B1, <- B2.
    set (c := Z.land tf 28 / 4) in *.
    assert (Hn : exists n, c = Z.of_nat n /\ (n < 8)%nat)
      by (exists (Z.to_nat c); lia).
    destruct Hn as (n & -> & Hn).
    do 8 (destruct n as [ | n]; [ reflexivity | ]).
    lia.
Qed.

Lemma combo_colors_skipped_range_witness :
  exists h,
    HitObject.parse "64,192,350,53,0,0:0:0:0:" = Ok h /\
    h.(HitObject.new_combo) = true /\
    h.(HitObject.combo_colors_skipped) = 5 /\
    0 <= h.(HitObject.combo_colors_skipped) <= 7.
Proof.
  eexists; split; [ vm_compute; reflexivity | ].
  split; [ reflexivity | ]. split; [ reflexivity | ].
  apply (combo_colors_skipped_range "64,192,350,53,0,0:0:0:0:").
  vm_compute; reflexivity.
Defined.

(** ** Hit sounds *)

(** X14.  The [hit_sound] list of an accepted hit object has between one
    and four entries and no sound twice; bits of the hit-sound field above
    bit 3 change nothing. *)
Theorem hit_sound_shape (line : string) (h : HitObject.t) :
  HitObject.parse line = Ok h ->
  (1 <= List.length h.(HitObject.hit_sound) <= 4)%nat /\
  NoDup h.(HitObject.hit_sound) /\
  exists flags,
    int_field line 4 = Ok flags /\
    h.(HitObject.hit_sound) = HitObject.hitsounds_of (Z.land flags 15).
Proof.
  intro H.
  destruct (parse_hit_object_ok _ _ H)
    as (tf & hs & x & y & t & _ & H4 & _ & _ & _ & Hs & _).
  rewrite Hs, !hitsounds_of_spec.
  assert (Hbits : forall k, 0 <= k < 4 ->
            Z.testbit (Z.land hs 15) k = Z.testbit hs k).
  { intros k Hk. rewrite Z.land_spec.
    assert (Hc : k = 0 \/ k = 1 \/ k = 2 \/ k = 3) by lia.
    destruct Hc as [-> | [-> | [-> | ->]]]; apply andb_true_r. }
  split; [ | split ].
  - unfold spec_hit_sound, flagged_sounds. cbv [filter sound_bit].
    destruct (Z.testbit hs 0), (Z.testbit hs 1),
      (Z.testbit hs 2), (Z.testbit hs 3); simpl; lia.
  - unfold spec_hit_sound, flagged_sounds. cbv [filter sound_bit].
    destruct (Z.testbit hs 0), (Z.testbit hs 1),
      (Z.testbit hs 2), (Z.testbit hs 3);
      repeat constructor; simpl; intuition discriminate.
  - exists hs. split; [ exact H4 | ].
    rewrite hitsounds_of_spec.
    unfold spec_hit_sound, flagged_sounds. cbv [filter sound_bit].
    rewrite !Hbits by lia. reflexivity.
Qed.

Lemma hit_sound_shape_witness :
  exists h,
    HitObject.parse "64,192,350,1,30,0:0:0:0:" = Ok h /\
    h.(HitObject.hit_sound) = [whistle; finish; clap] /\
    NoDup h.(HitObject.hit_sound).
Proof.
  eexists; split; [ vm_compute; reflexivity | ].
  split; [ reflexivity | ].
  apply (hit_sound_shape "64,192,350,1,30,0:0:0:0:").
  vm_compute; reflexivity.
Defined.

(** ** Key and value lines *)

Lemma split_key (key t : string) :
  ~ In ":"%char (chars key) ->
  split ":" (key ++ String ":" t) = key :: split ":" t.
Proof.
  intro H. unfold split.
  rewrite split_char_app, split_go_absent by exact H. reflexivity.
Qed.

Lemma split_no_colon (v : string) :
  ~ In ":"%char (chars v) -> split ":" v = [v].
Proof.
  intro H. unfold split. rewrite split_go_absent by exact H. reflexivity.
Qed.

(** Rewrites the split of a line that starts with a key and a colon. *)
Ltac split_key_line key :=
  rewrite (split_key key) by (vm_compute; intuition discriminate).

(** X15.  The value of a [Title], [Artist], [Creator] or [Version] line
    is the text between the first colon and the second one, or the end of the
    line: it is stored unchanged, white space included, and what follows a
    second colon is lost. *)
Theorem metadata_value_ends_at_colon (b : Beatmap.t) (v rest : string) :
  ~ In ":"%char (chars v) ->
  (read_metadata b ("Title:" ++ v) = Ok (Beatmap.set_title v b) /\
   read_metadata b ("Title:" ++ v ++ ":" ++ rest)
     = Ok (Beatmap.set_title v b)) /\
  (read_metadata b ("Artist:" ++ v) = Ok (Beatmap.set_artist v b) /\
   read_metadata b ("Artist:" ++ v ++ ":" ++ rest)
     = Ok (Beatmap.set_artist v b)) /\
  (read_metadata b ("Creator:" ++ v) = Ok (Beatmap.set_creator v b) /\
   read_metadata b ("Creator:" ++ v ++ ":" ++ rest)
     = Ok (Beatmap.set_creator v b)) /\
  (read_metadata b ("Version:" ++ v) = Ok (Beatmap.set_version v b) /\
   read_metadata b ("Version:" ++ v ++ ":" ++ rest)
     = Ok (Beatmap.set_version v b)).
Proof.
  intro Hv. unfold read_metadata.
  change ("Title:" ++ v)%string with ("Title" ++ String ":" v)%string.
  change ("Title:" ++ v ++ ":" ++ rest)%string
    with ("Title" ++ String ":" (v ++ String ":" rest))%string.
  change ("Artist:" ++ v)%string with ("Artist" ++ String ":" v)%string.
  change ("Artist:" ++ v ++ ":" ++ rest)%string
    with ("Artist" ++ String ":" (v ++ String ":" rest))%string.
  change ("Creator:" ++ v)%string with ("Creator" ++ String ":" v)%string.
  change ("Creator:" ++ v ++ ":" ++ rest)%string
    with ("Creator" ++ String ":" (v ++ String ":" rest))%string.
  change ("Version:" ++ v)%string with ("Version" ++ String ":" v)%string.
  change ("Version:" ++ v ++ ":" ++ rest)%string
    with ("Version" ++ String ":" (v ++ String ":" rest))%string.
  split_key_line "Title"%string. split_key_line "Title"%string.
  split_key_line "Artist"%string. split_key_line "Artist"%string.
  split_key_line "Creator"%string. split_key_line "Creator"%string.
  split_key_line "Version"%string. split_key_line "Version"%string.
  rewrite (split_key v rest) by exact Hv.
  rewrite (split_no_colon v) by exact Hv.
  repeat split; reflexivity.
Qed.

Lemma metadata_value_ends_at_colon_witness :
  read_metadata Beatmap.default "Title:Re:Start (TV Size)"
  = Ok (Beatmap.set_title "Re" Beatmap.default).
Proof.
  apply (metadata_value_ends_at_colon Beatmap.default "Re" "Start (TV Size)").
  vm_compute; intuition discriminate.
Defined.

Lemma split_char_length (c : ascii) (s acc : string) :
  List.length (split_go (String c EmptyString) 0 acc s) = S (occurrences c s).
Proof.
  revert acc; induction s as [ | d s IH]; intro acc; [ reflexivity | ].
  cbn [split_go occurrences]. rewrite prefix_char.
  destruct (Ascii.eqb c d); cbn [List.length]; rewrite IH; reflexivity.
Qed.

(** X16.  The value of a [Tags] line is cut at every single space: a value
    with [n] spaces gives [n + 1] tags, so two spaces in a row or a space at
    either end give an empty tag, and an empty value gives one empty tag. *)
Theorem tags_are_cut_at_spaces (b : Beatmap.t) (v : string) :
  ~ In ":"%char (chars v) ->
  read_metadata b ("Tags:" ++ v) = Ok (Beatmap.set_tags (split " " v) b) /\
  List.length (split " " v) = S (occurrences " " v).
Proof.
  intro Hv. split; [ | apply split_char_length ].
  unfold read_metadata.
  change ("Tags:" ++ v)%string with ("Tags" ++ String ":" v)%string.
  split_key_line "Tags"%string.
  rewrite (split_no_colon v) by exact Hv.
  reflexivity.
Qed.

Lemma tags_are_cut_at_spaces_witness :
  read_metadata Beatmap.default "Tags:rock  live "
  = Ok (Beatmap.set_tags ["rock"; ""; "live"; ""]%string Beatmap.default).
Proof.
  apply (tags_are_cut_at_spaces Beatmap.default "rock  live ").
  vm_compute; intuition discriminate.
Defined.

(** X17.  A [Metadata] line without a colon has no value.  If its text is
    one of the seven keys, reading the value fails with an index error;
    every other such line is ignored. *)
Theorem metadata_line_without_colon (b : Beatmap.t) (line : string) :
  ~ In ":"%char (chars line) ->
  read_metadata b line =
    if existsb (String.eqb line)
         ["Title"; "Artist"; "Creator"; "Version"; "Tags"; "BeatmapID";
          "BeatmapSetID"]%string
    then Raise IndexError
    else Ok b.
Proof.
  intro H. unfold read_metadata.
  rewrite (split_no_colon line) by exact H.
  cbn [index nth_error bind existsb].
  repeat match goal with
         | |- context [String.eqb line ?k] =>
             destruct (String.eqb line k); [ reflexivity | ]
         end.
  reflexivity.
Qed.

Lemma metadata_line_without_colon_witness :
  read_metadata Beatmap.default "Artist" = Raise IndexError.
Proof.
  apply (metadata_line_without_colon Beatmap.default "Artist").
  vm_compute; intuition discriminate.
Defined.

(** X18.  In the [General] section the key is separated from the value by
    a colon and a space.  A line without any space is therefore never taken
    apart: it is ignored, so that [Mode:1] passes the mode check, unless its
    whole text is [Mode], which fails the check, or [PreviewTime], which
    fails as an integer. *)
Theorem general_line_without_space (b : Beatmap.t) (line : string) :
  ~ In " "%char (chars line) ->
  read_general b line =
    if String.eqb line "Mode" then Raise invalid_mode
    else if String.eqb line "PreviewTime" then Raise invalid_int
    else Ok b.
Proof.
  intro H. unfold read_general, split.
  rewrite split_go_second_absent by exact H.
  cbn [append app index nth_error bind].
  destruct (String.eqb line "Mode"); [ reflexivity | ].
  destruct (String.eqb line "PreviewTime"); reflexivity.
Qed.

Lemma general_line_without_space_witness :
  read_general Beatmap.default "Mode:1" = Ok Beatmap.default.
Proof.
  apply (general_line_without_space Beatmap.default "Mode:1").
  vm_compute; intuition discriminate.
Defined.
